(** * A shallow embedding of the ring-buffer manager of liburing
    (src/src/io_uring.c, src/src/syscall.c).

    Every [unsigned] of the C code is a 32-bit unsigned integer: it is
    modelled as a [Z] in [0, 2^32) and every addition or subtraction on it
    is followed by [u32], the wrap-around of C unsigned arithmetic.  The
    barriers of barrier.h order memory accesses between this process and
    the kernel; the model is sequential, so they have no effect in it, and
    the kernel's concurrent steps are modelled by the values the kernel
    publishes between calls or answers to an [io_uring_enter] call. *)

From Stdlib Require Import ZArith Lia List Bool.
Import ListNotations.
Open Scope Z_scope.

(** ** Unsigned 32-bit arithmetic *)

(** [2 ^ 32]. *)
Definition u32_modulus : Z := 4294967296.

(** The wrap-around of an [unsigned] value. *)
Definition u32 (x : Z) : Z := x mod u32_modulus.

Definition is_u32 (x : Z) : Prop := 0 <= x < u32_modulus.

(** [IORING_ENTER_GETEVENTS] of the kernel header io_uring.h
    ([1U << 0]). *)
Definition IORING_ENTER_GETEVENTS : Z := 1.

(** ** The submission ring: [struct io_uring_sq]

    The fields the kernel maps ([khead], [ktail], [kring_mask],
    [kring_entries], [kflags], [kdropped], [array]) are held by value: the
    model reads and writes through the pointers of the C structure.  The
    [iocbs] buffer is not modelled; a slot of it is named by its index. *)
Module Sq.

Record io_uring_sq := mk_sq {
  khead : Z;
  ktail : Z;
  kring_mask : Z;
  kring_entries : Z;
  kflags : Z;
  kdropped : Z;
  array : Z -> Z;
  iocb_head : Z;
  iocb_tail : Z
}.

Definition set_iocb_tail (s : io_uring_sq) (v : Z) : io_uring_sq :=
  mk_sq (khead s) (ktail s) (kring_mask s) (kring_entries s) (kflags s)
        (kdropped s) (array s) (iocb_head s) v.

Definition set_ktail (s : io_uring_sq) (v : Z) : io_uring_sq :=
  mk_sq (khead s) v (kring_mask s) (kring_entries s) (kflags s)
        (kdropped s) (array s) (iocb_head s) (iocb_tail s).

Definition set_khead (s : io_uring_sq) (v : Z) : io_uring_sq :=
  mk_sq v (ktail s) (kring_mask s) (kring_entries s) (kflags s)
        (kdropped s) (array s) (iocb_head s) (iocb_tail s).

(** [sq->array[i] = v]. *)
Definition array_store (a : Z -> Z) (i v : Z) : Z -> Z :=
  fun j => if Z.eqb j i then v else a j.

(** ** [io_uring_get_iocb] (io_uring.c, lines 104-118)

    Returns the index in [iocbs] of the vacant slot ([None] is the [NULL]
    result) and the new descriptor. *)
Definition io_uring_get_iocb (s : io_uring_sq) : option Z * io_uring_sq :=
  let next := u32 (iocb_tail s + 1) in
  if kring_entries s <? u32 (next - iocb_head s) then (None, s)
  else (Some (Z.land (iocb_tail s) (kring_mask s)), set_iocb_tail s next).

(** ** [io_uring_submit] (io_uring.c, lines 49-95) *)

(** What [io_uring_submit] does last: return a value itself, or tail-call
    [io_uring_enter(fd, to_submit, min_complete, flags)] and return its
    result. *)
Inductive submit_ret :=
| Returned (r : Z)
| Entered (fd to_submit min_complete flags : Z).

(** The local variables and the fields the fill loop (lines 71-82)
    changes. *)
Record loop_state := mk_loop {
  l_ktail : Z;
  l_ktail_next : Z;
  l_iocb_head : Z;
  l_submitted : Z;
  l_array : Z -> Z
}.

(** The fill loop.  [mask] is the local copy of [*sq->kring_mask];
    [kh] is [*sq->khead], which the kernel holds fixed during the call.
    The loop increments [iocb_head] by one per round towards [iocb_tail],
    so it runs at most [iocb_tail - iocb_head] rounds: [fuel] is that
    bound, and once it is used up the test [iocb_head < iocb_tail] is
    false, the loop's own exit. *)
Fixpoint submit_loop (fuel : nat) (mask kh iocb_tl : Z) (st : loop_state)
  : loop_state :=
  match fuel with
  | O => st
  | S f =>
    if l_iocb_head st <? iocb_tl then
      let ktail_next := u32 (l_ktail_next st + 1) in
      if ktail_next =? kh then
        mk_loop (l_ktail st) ktail_next (l_iocb_head st) (l_submitted st)
                (l_array st)
      else
        let arr := array_store (l_array st) (Z.land (l_ktail st) mask)
                                (Z.land (l_iocb_head st) mask) in
        submit_loop f mask kh iocb_tl
          (mk_loop ktail_next ktail_next (u32 (l_iocb_head st + 1))
                   (u32 (l_submitted st + 1)) arr)
    else st
  end.

Definition io_uring_submit (fd : Z) (s : io_uring_sq)
  : io_uring_sq * submit_ret :=
  let mask := kring_mask s in
  if negb (khead s =? ktail s) then
    (s, Entered fd (kring_entries s) 0 IORING_ENTER_GETEVENTS)
  else if iocb_head s =? iocb_tail s then (s, Returned 0)
  else
    let st := submit_loop (Z.to_nat (iocb_tail s - iocb_head s)) mask
                (khead s) (iocb_tail s)
                (mk_loop (ktail s) (ktail s) (iocb_head s) 0 (array s)) in
    let s1 := mk_sq (khead s) (ktail s) (kring_mask s) (kring_entries s)
                    (kflags s) (kdropped s) (l_array st) (l_iocb_head st)
                    (iocb_tail s) in
    if l_submitted st =? 0 then (s1, Returned 0)
    else
      let s2 := if negb (ktail s1 =? l_ktail st) then set_ktail s1 (l_ktail st)
                else s1 in
      (s2, Entered fd (l_submitted st) 0 IORING_ENTER_GETEVENTS).

(** The value [io_uring_submit] returns, given the engine's answer
    [enter fd to_submit min_complete flags] to [io_uring_enter]. *)
Definition io_uring_submit_result (enter : Z -> Z -> Z -> Z -> Z)
  (fd : Z) (s : io_uring_sq) : Z :=
  match snd (io_uring_submit fd s) with
  | Returned r => r
  | Entered fd' n m f => enter fd' n m f
  end.

End Sq.

(** ** The completion ring: [struct io_uring_cq]

    [khead] is written by this library, [ktail] and the records of
    [events] by the kernel.  The [events] array is not modelled; a record
    of it is named by its index. *)
Module Cq.

Record io_uring_cq := mk_cq {
  khead : Z;
  ktail : Z;
  kring_mask : Z;
  kring_entries : Z;
  koverflow : Z
}.

Definition set_khead (c : io_uring_cq) (v : Z) : io_uring_cq :=
  mk_cq v (ktail c) (kring_mask c) (kring_entries c) (koverflow c).

Definition set_ktail (c : io_uring_cq) (v : Z) : io_uring_cq :=
  mk_cq (khead c) v (kring_mask c) (kring_entries c) (koverflow c).

(** The engine's answer to one [io_uring_enter(fd, 0, 1,
    IORING_ENTER_GETEVENTS)] call: its return value, the [errno] it
    leaves, and the CQ tail the kernel has published when it returns. *)
Record enter_reply := mk_reply {
  er_ret : Z;
  er_errno : Z;
  er_ktail : Z
}.

(** How a call of [io_uring_get_completion] ends: it returns [ret] with
    the new CQ state and the value stored in [*ev_ptr]; it returns [ret]
    from inside the loop, leaving [*ev_ptr] untouched; or it is still
    waiting when the engine's answers run out. *)
Inductive gc_outcome :=
| GcDone (ret : Z) (c : io_uring_cq) (ev : option Z)
| GcError (ret : Z) (c : io_uring_cq)
| GcBlocked.

(** Lines 35-41, after the loop has found [ev]. *)
Definition get_completion_finish (head : Z) (ev : option Z)
  (c : io_uring_cq) : gc_outcome :=
  let c' := match ev with
            | Some _ => set_khead c (u32 (head + 1))
            | None => c
            end in
  GcDone 0 c' ev.

(** The loop of lines 24-33.  [mask] and [head] are the locals read
    before it; each round reads [*cq->ktail] after the read barrier. *)
Fixpoint get_completion_loop (replies : list enter_reply) (mask head : Z)
  (c : io_uring_cq) : gc_outcome :=
  if negb (head =? ktail c) then
    get_completion_finish head (Some (Z.land head mask)) c
  else
    match replies with
    | [] => GcBlocked
    | r :: rs =>
      let c1 := set_ktail c (er_ktail r) in
      if er_ret r <? 0 then GcError (- er_errno r) c1
      else get_completion_loop rs mask head c1
    end.

(** ** [io_uring_get_completion] (io_uring.c, lines 15-42) *)
Definition io_uring_get_completion (replies : list enter_reply)
  (c : io_uring_cq) : gc_outcome :=
  get_completion_loop replies (kring_mask c) (khead c) c.

End Cq.

(** ** Mapping the rings: [io_uring_mmap] (io_uring.c, lines 120-166) *)
Module Mmap.

(** [size_t] arithmetic (64 bits). *)
Definition u64 (x : Z) : Z := x mod 18446744073709551616.

(** The offset tokens of the kernel header io_uring.h. *)
Definition IORING_OFF_SQ_RING : Z := 0.
Definition IORING_OFF_CQ_RING : Z := 134217728.
Definition IORING_OFF_IOCB : Z := 268435456.

Definition EINVAL : Z := 22.

Record io_sqring_offsets := mk_sq_off {
  so_head : Z; so_tail : Z; so_ring_mask : Z; so_ring_entries : Z;
  so_flags : Z; so_dropped : Z; so_array : Z
}.

Record io_cqring_offsets := mk_cq_off {
  co_head : Z; co_tail : Z; co_ring_mask : Z; co_ring_entries : Z;
  co_overflow : Z; co_events : Z
}.

Record io_uring_params := mk_params {
  sq_entries : Z;
  cq_entries : Z;
  sq_off : io_sqring_offsets;
  cq_off : io_cqring_offsets
}.

(** The pointer fields of [struct io_uring_sq] and [struct io_uring_cq],
    as addresses. *)
Record sq_ptrs := mk_sq_ptrs {
  sq_khead : Z; sq_ktail : Z; sq_kring_mask : Z; sq_kring_entries : Z;
  sq_kflags : Z; sq_kdropped : Z; sq_array : Z; sq_iocbs : Z;
  sq_ring_sz : Z
}.

Record cq_ptrs := mk_cq_ptrs {
  cq_khead : Z; cq_ktail : Z; cq_kring_mask : Z; cq_kring_entries : Z;
  cq_koverflow : Z; cq_events : Z; cq_ring_sz : Z
}.

(** The process's mappings, as (start address, length) pairs, most
    recent first, and [errno]. *)
Record mm := mk_mm {
  maps : list (Z * Z);
  errno : Z
}.

(** The kernel's answer to an [mmap] of the region named by an offset
    token: the address of the new mapping, or failure with an [errno]. *)
Inductive mmap_reply :=
| MapAt (addr : Z)
| MapFail (err : Z).

(** [mmap(0, len, ..., fd, off)]; [None] is [MAP_FAILED]. *)
Definition mmap (kernel : Z -> mmap_reply) (len off : Z) (w : mm)
  : option Z * mm :=
  match kernel off with
  | MapAt a => (Some a, mk_mm ((a, len) :: maps w) (errno w))
  | MapFail e => (None, mk_mm (maps w) e)
  end.

Fixpoint remove_first (x : Z * Z) (l : list (Z * Z)) : option (list (Z * Z)) :=
  match l with
  | [] => None
  | y :: l' =>
    if (fst y =? fst x) && (snd y =? snd x) then Some l'
    else option_map (cons y) (remove_first x l')
  end.

(** [munmap(addr, len)]: a call naming the start and the length of a
    mapping releases it.  Any other call releases no whole mapping: at an
    address that is not page aligned (inside a mapping, past its start)
    Linux fails with [EINVAL]; the model fails that way on every such
    call. *)
Definition munmap (addr len : Z) (w : mm) : Z * mm :=
  match remove_first (addr, len) (maps w) with
  | Some l => (0, mk_mm l (errno w))
  | None => (-1, mk_mm (maps w) EINVAL)
  end.

Section Sizes.
(** [sizeof(struct io_uring_iocb)] and [sizeof(struct io_uring_event)]:
    the header io_uring.h that defines them is not part of the sources. *)
Variables sizeof_iocb sizeof_event : Z.

Definition io_uring_mmap (kernel : Z -> mmap_reply) (fd : Z)
  (p : io_uring_params) (sq : sq_ptrs) (cq : cq_ptrs) (w : mm)
  : Z * sq_ptrs * cq_ptrs * mm :=
  let ring_sz := u64 (so_array (sq_off p) + sq_entries p * 4) in
  let sq0 := mk_sq_ptrs (sq_khead sq) (sq_ktail sq) (sq_kring_mask sq)
               (sq_kring_entries sq) (sq_kflags sq) (sq_kdropped sq)
               (sq_array sq) (sq_iocbs sq) ring_sz in
  let '(r1, w1) := mmap kernel ring_sz IORING_OFF_SQ_RING w in
  match r1 with
  | None => (- errno w1, sq0, cq, w1)
  | Some ptr =>
    let o := sq_off p in
    let size := u64 (sq_entries p * sizeof_iocb) in
    let '(r2, w2) := mmap kernel size IORING_OFF_IOCB w1 in
    let iocbs := match r2 with Some a => a | None => -1 end in
    let sq1 := mk_sq_ptrs (ptr + so_head o) (ptr + so_tail o)
                 (ptr + so_ring_mask o) (ptr + so_ring_entries o)
                 (ptr + so_flags o) (ptr + so_dropped o) (ptr + so_array o)
                 iocbs ring_sz in
    match r2 with
    | None =>
      let ret := - errno w2 in
      let '(_, w3) := munmap (sq_khead sq1) (sq_ring_sz sq1) w2 in
      (ret, sq1, cq, w3)
    | Some _ =>
      let cring_sz := u64 (co_events (cq_off p) + cq_entries p * sizeof_event) in
      let '(r3, w3) := mmap kernel cring_sz IORING_OFF_CQ_RING w2 in
      let cq0 := mk_cq_ptrs (cq_khead cq) (cq_ktail cq) (cq_kring_mask cq)
                   (cq_kring_entries cq) (cq_koverflow cq) (cq_events cq)
                   cring_sz in
      match r3 with
      | None =>
        let ret := - errno w3 in
        let '(_, w4) := munmap (sq_iocbs sq1) (u64 (sq_entries p * sizeof_iocb)) w3 in
        let '(_, w5) := munmap (sq_khead sq1) (sq_ring_sz sq1) w4 in
        (ret, sq1, cq0, w5)
      | Some cptr =>
        let c := cq_off p in
        (fd, sq1,
         mk_cq_ptrs (cptr + co_head c) (cptr + co_tail c) (cptr + co_ring_mask c)
                    (cptr + co_ring_entries c) (cptr + co_overflow c)
                    (cptr + co_events c) cring_sz,
         w3)
      end
    end
  end.

End Sizes.

End Mmap.

(** ** Reachable submission rings

    The ring depth the kernel negotiates is a power of two, [2 ^ k]
    entries, with [ring_mask = 2 ^ k - 1]; the kernel starts [head] and
    [tail] at 0, and [io_uring_queue_init] zeroes the shadow indices
    ([memset]).  From there the library moves the ring by
    [io_uring_get_iocb] and [io_uring_submit], and the kernel by consuming
    entries, which moves [*sq->khead]. *)
Definition sq_init (k : Z) (arr : Z -> Z) : Sq.io_uring_sq :=
  Sq.mk_sq 0 0 (2 ^ k - 1) (2 ^ k) 0 0 arr 0 0.

Inductive sq_reachable : Sq.io_uring_sq -> Prop :=
| reach_init k arr :
    0 <= k <= 31 -> sq_reachable (sq_init k arr)
| reach_get_iocb s :
    sq_reachable s -> sq_reachable (snd (Sq.io_uring_get_iocb s))
| reach_submit fd s :
    sq_reachable s -> sq_reachable (fst (Sq.io_uring_submit fd s))
| reach_kernel s h :
    sq_reachable s -> is_u32 h -> sq_reachable (Sq.set_khead s h).

(** A ring capacity as the kernel reports it. *)
Definition capacity_wf (e : Z) : Prop := exists k, 0 <= k <= 31 /\ e = 2 ^ k.

(** The invariant of reachable submission rings: the indices are
    [unsigned] values and the occupancy of the shadow range is at most
    the capacity. *)
Definition sq_inv (s : Sq.io_uring_sq) : Prop :=
  capacity_wf (Sq.kring_entries s) /\
  Sq.kring_mask s = Sq.kring_entries s - 1 /\
  is_u32 (Sq.khead s) /\ is_u32 (Sq.ktail s) /\
  is_u32 (Sq.iocb_head s) /\ is_u32 (Sq.iocb_tail s) /\
  u32 (Sq.iocb_tail s - Sq.iocb_head s) <= Sq.kring_entries s.

(** ** Concrete rings used by the examples below *)

(** A ring of depth 4 after two slots have been acquired. *)
Definition ex_two_acquired : Sq.io_uring_sq :=
  snd (Sq.io_uring_get_iocb (snd (Sq.io_uring_get_iocb (sq_init 2 (fun _ => 0))))).

(** A ring of depth 4 whose previous publish left 3 entries unconsumed
    by the kernel. *)
Definition ex_pending : Sq.io_uring_sq :=
  Sq.mk_sq 5 8 3 4 0 0 (fun _ => 0) 8 8.

(** A full ring of depth 4: four slots acquired. *)
Definition ex_full : Sq.io_uring_sq :=
  Sq.mk_sq 0 0 3 4 0 0 (fun _ => 0) 0 4.

(** A full ring of depth 4 whose free-running shadow indices have
    wrapped past [2^32]: [iocb_head = 2^32 - 2], [iocb_tail = 2]. *)
Definition ex_wrapped : Sq.io_uring_sq :=
  Sq.mk_sq 0 0 3 4 0 0 (fun _ => 0) 4294967294 2.

(** A completion ring with two records the kernel has posted. *)
Definition ex_cq : Cq.io_uring_cq := Cq.mk_cq 6 8 7 8 0.

(** A completion ring with nothing posted yet. *)
Definition ex_cq_empty : Cq.io_uring_cq := Cq.mk_cq 6 6 7 8 0.

(** Offsets as the kernel reports them ([head] at the start of each ring
    region), and the same with the SQ [head] index 64 bytes in. *)
Definition ex_params (sq_head_off : Z) : Mmap.io_uring_params :=
  Mmap.mk_params 4 8
    (Mmap.mk_sq_off sq_head_off 64 128 132 136 140 192)
    (Mmap.mk_cq_off 0 64 128 132 136 192).

Definition ex_sq_ptrs : Mmap.sq_ptrs := Mmap.mk_sq_ptrs 0 0 0 0 0 0 0 0 0.
Definition ex_cq_ptrs : Mmap.cq_ptrs := Mmap.mk_cq_ptrs 0 0 0 0 0 0 0.

(** The kernel maps the SQ ring and then fails the iocb mapping with
    [ENOMEM]. *)
Definition ex_kernel_iocb_fails (off : Z) : Mmap.mmap_reply :=
  if off =? Mmap.IORING_OFF_SQ_RING then Mmap.MapAt 4096
  else Mmap.MapFail 12.

(** The engine is interrupted ([EINTR]) before posting anything. *)
Definition ex_replies_eintr : list Cq.enter_reply := [Cq.mk_reply (-1) 4 6].

(** The kernel maps all three regions. *)
Definition ex_kernel_ok (off : Z) : Mmap.mmap_reply :=
  if off =? Mmap.IORING_OFF_SQ_RING then Mmap.MapAt 4096
  else if off =? Mmap.IORING_OFF_IOCB then Mmap.MapAt 8192
  else Mmap.MapAt 16384.

(** ** Creating and tearing down the rings: [io_uring_queue_init] and
    [io_uring_queue_exit] (io_uring.c, lines 168-193) *)
Module Init.

(** The process: its mappings and [errno], and its open descriptors. *)
Record proc := mk_proc {
  p_mm : Mmap.mm;
  p_fds : list Z
}.

Definition EBADF : Z := 9.

(** The kernel's answer to [io_uring_setup]: a new descriptor together
    with the parameters it writes back into [*p], or a failure with an
    [errno]. *)
Inductive setup_reply :=
| SetupFd (fd : Z) (p : Mmap.io_uring_params)
| SetupFail (err : Z).

(** [io_uring_setup] (syscall.c, lines 20-24): [syscall] returns the new
    descriptor, or -1 with [errno] set. *)
Definition io_uring_setup (reply : setup_reply) (p : Mmap.io_uring_params)
  (w : proc) : Z * Mmap.io_uring_params * proc :=
  match reply with
  | SetupFd fd p' => (fd, p', mk_proc (p_mm w) (fd :: p_fds w))
  | SetupFail e => (-1, p, mk_proc (Mmap.mk_mm (Mmap.maps (p_mm w)) e) (p_fds w))
  end.

Fixpoint remove_fd (fd : Z) (l : list Z) : option (list Z) :=
  match l with
  | [] => None
  | x :: l' => if x =? fd then Some l' else option_map (cons x) (remove_fd fd l')
  end.

(** [close(fd)]. *)
Definition close (fd : Z) (w : proc) : Z * proc :=
  match remove_fd fd (p_fds w) with
  | Some l => (0, mk_proc (p_mm w) l)
  | None => (-1, mk_proc (Mmap.mk_mm (Mmap.maps (p_mm w)) EBADF) (p_fds w))
  end.

(** The descriptors after [memset(sq, 0, ...)] and [memset(cq, 0, ...)]. *)
Definition sq_zero : Mmap.sq_ptrs := Mmap.mk_sq_ptrs 0 0 0 0 0 0 0 0 0.
Definition cq_zero : Mmap.cq_ptrs := Mmap.mk_cq_ptrs 0 0 0 0 0 0 0.

Section Sizes.
Variables sizeof_iocb sizeof_event : Z.

(** [io_uring_queue_init(entries, p, iovecs, sq, cq)]: the requested
    depth and the iovecs go to the kernel, whose answer is [setup]. *)
Definition io_uring_queue_init (setup : setup_reply)
  (kernel : Z -> Mmap.mmap_reply) (p : Mmap.io_uring_params)
  (sq : Mmap.sq_ptrs) (cq : Mmap.cq_ptrs) (w : proc)
  : Z * Mmap.io_uring_params * Mmap.sq_ptrs * Mmap.cq_ptrs * proc :=
  let '(fd, p1, w1) := io_uring_setup setup p w in
  if fd <? 0 then (fd, p1, sq, cq, w1)
  else
    let '(ret, sq1, cq1, m) :=
      Mmap.io_uring_mmap sizeof_iocb sizeof_event kernel fd p1 sq_zero cq_zero
        (p_mm w1) in
    (ret, p1, sq1, cq1, mk_proc m (p_fds w1)).

(** [io_uring_queue_exit(fd, sq, cq)]; [ring_entries] is the value the
    kernel keeps at [*sq->kring_entries] in the mapped SQ ring. *)
Definition io_uring_queue_exit (ring_entries fd : Z) (sq : Mmap.sq_ptrs)
  (cq : Mmap.cq_ptrs) (w : proc) : proc :=
  let '(_, m1) := Mmap.munmap (Mmap.sq_iocbs sq)
                    (Mmap.u64 (ring_entries * sizeof_iocb)) (p_mm w) in
  let '(_, m2) := Mmap.munmap (Mmap.sq_khead sq) (Mmap.sq_ring_sz sq) m1 in
  let '(_, m3) := Mmap.munmap (Mmap.cq_khead cq) (Mmap.cq_ring_sz cq) m2 in
  snd (close fd (mk_proc m3 (p_fds w))).

End Sizes.

End Init.

(** ** Callers' sequences of calls *)

(** [n] calls of [io_uring_get_iocb] in a row, with their results. *)
Fixpoint get_iocbs (n : nat) (s : Sq.io_uring_sq) : list (option Z) * Sq.io_uring_sq :=
  match n with
  | O => ([], s)
  | S n' =>
    let '(r, s1) := Sq.io_uring_get_iocb s in
    let '(rs, s2) := get_iocbs n' s1 in
    (r :: rs, s2)
  end.

(** [n] calls of [io_uring_get_completion] in a row that need no engine
    call: the records handed back, or [None] if one of them does not
    return 0 with a record at once. *)
Fixpoint drain (n : nat) (c : Cq.io_uring_cq) : option (list Z * Cq.io_uring_cq) :=
  match n with
  | O => Some ([], c)
  | S n' =>
    match Cq.io_uring_get_completion [] c with
    | Cq.GcDone 0 c1 (Some ev) =>
      match drain n' c1 with
      | Some (evs, c2) => Some (ev :: evs, c2)
      | None => None
      end
    | _ => None
    end
  end.

(** ** Arithmetic of [unsigned] values *)

Lemma u32_range : forall x, is_u32 (u32 x).
Proof. intro x. unfold is_u32, u32, u32_modulus. apply Z.mod_pos_bound. lia. Qed.

Lemma u32_small : forall x, is_u32 x -> u32 x = x.
Proof. intros x H. unfold is_u32, u32 in *. apply Z.mod_small. lia. Qed.

Lemma u32_add_l : forall a b, u32 (u32 a + b) = u32 (a + b).
Proof. intros. unfold u32. apply Z.add_mod_idemp_l. unfold u32_modulus. lia. Qed.

Lemma u32_sub_l : forall a b, u32 (u32 a - b) = u32 (a - b).
Proof. intros. unfold u32. apply Zminus_mod_idemp_l. Qed.

Lemma u32_add_self : forall a m, is_u32 a -> 0 < m < u32_modulus -> u32 (a + m) <> a.
Proof.
  intros a m Ha Hm Heq. unfold u32, is_u32, u32_modulus in *.
  Z.div_mod_to_equations. nia.
Qed.

Lemma capacity_wf_bound : forall e, capacity_wf e -> 1 <= e <= 2147483648.
Proof.
  intros e [k [Hk ->]]. split.
  - change 1 with (2 ^ 0). apply Z.pow_le_mono_r; lia.
  - change 2147483648 with (2 ^ 31). apply Z.pow_le_mono_r; lia.
Qed.

(** The fullness test of [io_uring_get_iocb] against the occupancy of
    the shadow range, for a capacity [e] below [2^32 - 1]. *)
Lemma full_test_iff : forall e h t,
  0 <= e -> e + 1 < u32_modulus -> is_u32 h -> is_u32 t ->
  u32 (t - h) <= e ->
  (e < u32 (u32 (t + 1) - h) <-> u32 (t - h) = e).
Proof.
  intros e h t He He1 Hh Ht Hocc.
  rewrite u32_sub_l.
  replace (t + 1 - h) with ((t - h) + 1) by lia.
  rewrite <- u32_add_l.
  pose proof (u32_range (t - h)) as Hr. unfold is_u32 in Hr.
  rewrite (u32_small (u32 (t - h) + 1)) by (unfold is_u32; lia).
  lia.
Qed.

(** ** The fill loop of [io_uring_submit] *)

(** The loop only moves [iocb_head] forward, up to [iocb_tail], and
    keeps the candidate tail an [unsigned] value. *)
Lemma submit_loop_head : forall n mask kh tl st,
  is_u32 tl -> is_u32 (Sq.l_iocb_head st) -> is_u32 (Sq.l_ktail st) ->
  is_u32 (Sq.l_ktail (Sq.submit_loop n mask kh tl st)) /\
  (Sq.l_iocb_head (Sq.submit_loop n mask kh tl st) = Sq.l_iocb_head st \/
   Sq.l_iocb_head st < Sq.l_iocb_head (Sq.submit_loop n mask kh tl st) <= tl).
Proof.
  induction n as [|n IH]; intros mask kh tl st Htl Hh Hk; simpl.
  - auto.
  - destruct (Sq.l_iocb_head st <? tl) eqn:Hlt; [|auto].
    apply Z.ltb_lt in Hlt.
    destruct (u32 (Sq.l_ktail_next st + 1) =? kh); [simpl; auto|].
    set (st' := Sq.mk_loop _ _ _ _ _).
    assert (Hh' : Sq.l_iocb_head st' = Sq.l_iocb_head st + 1).
    { simpl. apply u32_small. unfold is_u32 in *. lia. }
    destruct (IH mask kh tl st') as [Hk' Hd]; auto.
    + rewrite Hh'. unfold is_u32 in *. lia.
    + apply u32_range.
    + split; [exact Hk'|]. right. rewrite Hh' in Hd. lia.
Qed.

(** When the kernel ring is empty on entry ([*sq->khead == *sq->ktail ==
    kt0]), the candidate tail never comes back to [kt0] within fewer than
    [2^32] rounds: the loop publishes the whole shadow range [[h0, tl)],
    and the candidate tail ends [tl - h0] past [kt0]. *)
Lemma submit_loop_publish : forall n j kt0 h0 tl mask arr,
  0 <= j -> j + Z.of_nat n = tl - h0 -> 0 <= h0 -> tl < u32_modulus ->
  is_u32 kt0 ->
  let o := Sq.submit_loop n mask kt0 tl
             (Sq.mk_loop (u32 (kt0 + j)) (u32 (kt0 + j)) (h0 + j) j arr) in
  Sq.l_ktail o = u32 (kt0 + (tl - h0)) /\ Sq.l_iocb_head o = tl /\
  Sq.l_submitted o = tl - h0.
Proof.
  induction n as [|n IH]; intros j kt0 h0 tl mask arr Hj Hn Hh0 Htl Hkt0; simpl.
  - replace (tl - h0) with j by lia. repeat split; lia.
  - assert (Hlt : h0 + j < tl) by lia.
    apply Z.ltb_lt in Hlt. rewrite Hlt.
    rewrite u32_add_l, <- Z.add_assoc.
    destruct (u32 (kt0 + (j + 1)) =? kt0) eqn:Heq.
    + apply Z.eqb_eq in Heq. exfalso.
      apply (u32_add_self kt0 (j + 1)); auto. lia.
    + rewrite (u32_small (h0 + j + 1)) by (unfold is_u32; lia).
      rewrite (u32_small (j + 1)) by (unfold is_u32; lia).
      replace (h0 + j + 1) with (h0 + (j + 1)) by lia.
      apply IH; auto; lia.
Qed.

(** ** The invariant of reachable submission rings *)

Lemma sq_inv_init : forall k arr, 0 <= k <= 31 -> sq_inv (sq_init k arr).
Proof.
  intros k arr Hk.
  assert (Hc : capacity_wf (2 ^ k)) by (exists k; auto).
  pose proof (capacity_wf_bound _ Hc).
  unfold sq_inv, sq_init; simpl.
  repeat split; try exact Hc; try (unfold is_u32, u32_modulus; lia).
  change (u32 0) with 0. lia.
Qed.

Lemma sq_inv_get_iocb : forall s, sq_inv s -> sq_inv (snd (Sq.io_uring_get_iocb s)).
Proof.
  intros s (Hc & Hm & Hkh & Hkt & Hh & Ht & Hocc).
  unfold Sq.io_uring_get_iocb.
  destruct (Sq.kring_entries s <? u32 (u32 (Sq.iocb_tail s + 1) - Sq.iocb_head s)) eqn:E.
  - simpl. unfold sq_inv. auto 10.
  - apply Z.ltb_ge in E. unfold sq_inv, Sq.set_iocb_tail; simpl.
    exact (conj Hc (conj Hm (conj Hkh (conj Hkt (conj Hh (conj (u32_range _) E)))))).
Qed.

Lemma sq_inv_submit : forall fd s, sq_inv s -> sq_inv (fst (Sq.io_uring_submit fd s)).
Proof.
  intros fd s Hinv.
  pose proof Hinv as (Hc & Hm & Hkh & Hkt & Hh & Ht & Hocc).
  unfold Sq.io_uring_submit.
  destruct (negb (Sq.khead s =? Sq.ktail s)); [exact Hinv|].
  destruct (Sq.iocb_head s =? Sq.iocb_tail s); [exact Hinv|].
  set (o := Sq.submit_loop _ _ _ _ _).
  destruct (submit_loop_head (Z.to_nat (Sq.iocb_tail s - Sq.iocb_head s))
              (Sq.kring_mask s) (Sq.khead s) (Sq.iocb_tail s)
              (Sq.mk_loop (Sq.ktail s) (Sq.ktail s) (Sq.iocb_head s) 0 (Sq.array s)))
    as [Hko Hho]; auto.
  fold o in Hko, Hho. simpl in Hho.
  assert (Hocc' : u32 (Sq.iocb_tail s - Sq.l_iocb_head o) <= Sq.kring_entries s).
  { destruct Hho as [-> | Hlt]; [exact Hocc|].
    unfold is_u32 in *.
    rewrite u32_small by (unfold is_u32; lia).
    rewrite (u32_small (Sq.iocb_tail s - Sq.iocb_head s)) in Hocc
      by (unfold is_u32; lia).
    lia. }
  assert (Hho' : is_u32 (Sq.l_iocb_head o)).
  { destruct Hho as [-> | Hlt]; auto. unfold is_u32 in *; lia. }
  destruct (Sq.l_submitted o =? 0).
  - unfold sq_inv; simpl. auto 10.
  - simpl. destruct (negb (Sq.ktail s =? Sq.l_ktail o));
      unfold sq_inv, Sq.set_ktail; simpl; auto 10.
Qed.

Lemma sq_inv_kernel : forall s h, sq_inv s -> is_u32 h -> sq_inv (Sq.set_khead s h).
Proof.
  intros s h (Hc & Hm & Hkh & Hkt & Hh & Ht & Hocc) Hu.
  unfold sq_inv, Sq.set_khead; simpl. auto 10.
Qed.

Lemma sq_reachable_inv : forall s, sq_reachable s -> sq_inv s.
Proof.
  induction 1.
  - apply sq_inv_init; auto.
  - apply sq_inv_get_iocb; auto.
  - apply sq_inv_submit; auto.
  - apply sq_inv_kernel; auto.
Qed.

(** ** Claims on the submission ring *)

(** C1.  When [io_uring_submit] takes the publish path (the kernel ring
    is empty on entry, [*sq->khead == *sq->ktail], and the kernel holds
    its state fixed during the call) on a reachable ring and submits a
    positive number [n] of entries, the new kernel-visible tail is the
    kernel-visible head plus [n], and it is at most [*sq->kring_entries]
    past that head (all in [unsigned] arithmetic). *)
Theorem io_uring_submit_publish_tail : forall fd s s' fd' n m f,
  sq_reachable s ->
  Sq.khead s = Sq.ktail s ->
  Sq.io_uring_submit fd s = (s', Sq.Entered fd' n m f) ->
  0 < n ->
  Sq.khead s' = Sq.khead s /\
  Sq.ktail s' = u32 (Sq.khead s + n) /\
  u32 (Sq.ktail s' - Sq.khead s) <= Sq.kring_entries s.
Proof.
  intros fd s s' fd' n m f Hr Hempty Hsub Hn.
  pose proof (sq_reachable_inv s Hr) as (Hc & Hm & Hkh & Hkt & Hh & Ht & Hocc).
  unfold Sq.io_uring_submit in Hsub.
  rewrite Hempty, Z.eqb_refl in Hsub. simpl negb in Hsub. cbv iota in Hsub.
  rewrite Hempty.
  destruct (Sq.iocb_head s =? Sq.iocb_tail s) eqn:E; [discriminate|].
  apply Z.eqb_neq in E.
  destruct (Z.lt_ge_cases (Sq.iocb_head s) (Sq.iocb_tail s)) as [Hlt|Hge].
  - pose proof (submit_loop_publish (Z.to_nat (Sq.iocb_tail s - Sq.iocb_head s)) 0
                  (Sq.ktail s) (Sq.iocb_head s) (Sq.iocb_tail s)
                  (Sq.kring_mask s) (Sq.array s)) as Hpub.
    rewrite Z.add_0_r, Z.add_0_r, u32_small in Hpub by exact Hkt.
    unfold is_u32 in Hh, Ht.
    specialize (Hpub ltac:(lia) ltac:(lia) ltac:(lia) ltac:(lia) Hkt).
    destruct Hpub as (Hkt' & Hhd & Hsb).
    set (o := Sq.submit_loop _ _ _ _ _) in Hsub, Hkt', Hhd, Hsb.
    cbv zeta in Hsub. rewrite Hsb in Hsub.
    destruct (Sq.iocb_tail s - Sq.iocb_head s =? 0) eqn:E0;
      [apply Z.eqb_eq in E0; lia|].
    simpl Sq.ktail in Hsub.
    destruct (negb (Sq.ktail s =? Sq.l_ktail o)) eqn:Ew;
      injection Hsub as <- <- <- <- <-; simpl.
    + rewrite Hkt'. repeat split; auto.
      rewrite u32_sub_l. replace (Sq.ktail s + _ - Sq.ktail s) with
        (Sq.iocb_tail s - Sq.iocb_head s) by lia. lia.
    + apply negb_false_iff, Z.eqb_eq in Ew. rewrite Hkt' in Ew.
      exfalso. apply (u32_add_self (Sq.ktail s) (Sq.iocb_tail s - Sq.iocb_head s));
        [exact Hkt | lia | symmetry; exact Ew].
  - replace (Z.to_nat (Sq.iocb_tail s - Sq.iocb_head s)) with O in Hsub by lia.
    simpl in Hsub. discriminate.
Qed.

Lemma u32_add_r : forall a b, u32 (a + u32 b) = u32 (a + b).
Proof. intros. unfold u32. apply Z.add_mod_idemp_r. unfold u32_modulus. lia. Qed.

(** The loop moves [iocb_head] and counts [submitted] in step. *)
Lemma submit_loop_count : forall n mask kh tl h0 st,
  Sq.l_iocb_head st = u32 (h0 + Sq.l_submitted st) ->
  Sq.l_iocb_head (Sq.submit_loop n mask kh tl st) =
  u32 (h0 + Sq.l_submitted (Sq.submit_loop n mask kh tl st)).
Proof.
  induction n as [|n IH]; intros mask kh tl h0 st Hst; simpl; [exact Hst|].
  destruct (Sq.l_iocb_head st <? tl); [|exact Hst].
  destruct (u32 (Sq.l_ktail_next st + 1) =? kh); [exact Hst|].
  apply IH. simpl. rewrite Hst, u32_add_l, u32_add_r. f_equal. lia.
Qed.

(** C2.  [io_uring_get_iocb] computes [next = iocb_tail + 1] and returns
    [NULL] exactly when [next - iocb_head > *kring_entries]; otherwise it
    returns the slot at [iocb_tail & *kring_mask] and sets [iocb_tail] to
    [next], changing nothing else.  On a reachable ring the test is true
    exactly when the occupancy [iocb_tail - iocb_head] equals the
    capacity. *)
Theorem io_uring_get_iocb_spec : forall s,
  let next := u32 (Sq.iocb_tail s + 1) in
  (fst (Sq.io_uring_get_iocb s) = None <->
   Sq.kring_entries s < u32 (next - Sq.iocb_head s)) /\
  (fst (Sq.io_uring_get_iocb s) <> None ->
   fst (Sq.io_uring_get_iocb s) = Some (Z.land (Sq.iocb_tail s) (Sq.kring_mask s)) /\
   snd (Sq.io_uring_get_iocb s) = Sq.set_iocb_tail s next) /\
  (sq_reachable s ->
   (fst (Sq.io_uring_get_iocb s) = None <->
    u32 (Sq.iocb_tail s - Sq.iocb_head s) = Sq.kring_entries s)).
Proof.
  intro s. cbv zeta. unfold Sq.io_uring_get_iocb.
  destruct (Sq.kring_entries s <? u32 (u32 (Sq.iocb_tail s + 1) - Sq.iocb_head s)) eqn:E;
    simpl.
  - apply Z.ltb_lt in E.
    split; [tauto|]. split; [congruence|].
    intro Hr. pose proof (sq_reachable_inv s Hr) as (Hc & _ & _ & _ & Hh & Ht & Hocc).
    pose proof (capacity_wf_bound _ Hc).
    split; [|reflexivity]. intros _.
    apply (full_test_iff (Sq.kring_entries s)); auto; unfold u32_modulus; lia.
  - apply Z.ltb_ge in E.
    split; [split; [discriminate|lia]|]. split; [auto|].
    intro Hr. pose proof (sq_reachable_inv s Hr) as (Hc & _ & _ & _ & Hh & Ht & Hocc).
    pose proof (capacity_wf_bound _ Hc).
    split; [discriminate|]. intro Heq.
    apply (full_test_iff (Sq.kring_entries s)) in Heq; auto; unfold u32_modulus in *; lia.
Qed.

(** C4.  When the kernel-visible SQ head and tail differ on entry
    (entries published by a previous call are still unconsumed),
    [io_uring_submit] goes straight to [io_uring_enter], with the entry
    count [*sq->kring_entries] the kernel recorded in the ring as
    [to_submit], and leaves the ring as it was: no shadow descriptor is
    walked or published. *)
Theorem io_uring_submit_pending : forall fd s,
  Sq.khead s <> Sq.ktail s ->
  Sq.io_uring_submit fd s =
  (s, Sq.Entered fd (Sq.kring_entries s) 0 IORING_ENTER_GETEVENTS).
Proof.
  intros fd s Hne. unfold Sq.io_uring_submit.
  apply Z.eqb_neq in Hne. rewrite Hne. reflexivity.
Qed.

(** C5 (as stated it fails).  On the publish path the engine call
    asks for no completion: [min_complete] is 0. *)
Lemma io_uring_submit_min_complete_zero :
  match snd (Sq.io_uring_submit 3 ex_two_acquired) with
  | Sq.Entered _ _ min_complete _ => ~ (1 <= min_complete)
  | Sq.Returned _ => False
  end.
Proof. vm_compute. intro H. apply H. reflexivity. Qed.

(** C5 (amended).  When [io_uring_submit] reaches the engine call, it
    calls [io_uring_enter(fd, submitted, 0, IORING_ENTER_GETEVENTS)] and
    returns that call's result: [submitted] is [*sq->kring_entries] on
    the pending path, and on the publish path it is the positive number
    of shadow descriptors published ([iocb_head] moves by it);
    [min_complete] is 0, so no completion is requested. *)
Theorem io_uring_submit_enter_args : forall enter fd s s' fd' n m f,
  is_u32 (Sq.iocb_head s) ->
  Sq.io_uring_submit fd s = (s', Sq.Entered fd' n m f) ->
  fd' = fd /\ m = 0 /\ f = IORING_ENTER_GETEVENTS /\
  (Sq.khead s <> Sq.ktail s -> n = Sq.kring_entries s) /\
  (Sq.khead s = Sq.ktail s -> n <> 0 /\ Sq.iocb_head s' = u32 (Sq.iocb_head s + n)) /\
  Sq.io_uring_submit_result enter fd s = enter fd n 0 IORING_ENTER_GETEVENTS.
Proof.
  intros enter fd s s' fd' n m f Hh Hsub.
  unfold Sq.io_uring_submit_result. rewrite Hsub. simpl.
  unfold Sq.io_uring_submit in Hsub.
  destruct (Sq.khead s =? Sq.ktail s) eqn:Ek; simpl negb in Hsub; cbv iota in Hsub.
  - apply Z.eqb_eq in Ek.
    destruct (Sq.iocb_head s =? Sq.iocb_tail s); [discriminate|].
    set (o := Sq.submit_loop _ _ _ _ _) in Hsub.
    assert (Hcnt : Sq.l_iocb_head o = u32 (Sq.iocb_head s + Sq.l_submitted o)).
    { apply submit_loop_count. simpl. rewrite Z.add_0_r, u32_small; auto. }
    cbv zeta in Hsub.
    destruct (Sq.l_submitted o =? 0) eqn:E0; [discriminate|].
    apply Z.eqb_neq in E0.
    destruct (negb _); injection Hsub as <- <- <- <- <-;
      (split; [reflexivity|]); (split; [reflexivity|]);
      (split; [reflexivity|]); (split; [intro Hne; contradiction|]);
      (split; [|reflexivity]); intros _; split; auto.
  - apply Z.eqb_neq in Ek. injection Hsub as <- <- <- <- <-.
    split; [reflexivity|]. split; [reflexivity|].
    split; [reflexivity|]. split; [reflexivity|].
    split; [intro; contradiction|reflexivity].
Qed.

(** C8.  With the kernel ring empty and no shadow descriptor queued,
    [io_uring_submit] returns 0 without the engine call and leaves the
    ring as it was. *)
Theorem io_uring_submit_nothing : forall fd s,
  Sq.khead s = Sq.ktail s ->
  Sq.iocb_head s = Sq.iocb_tail s ->
  Sq.io_uring_submit fd s = (s, Sq.Returned 0).
Proof.
  intros fd s Hk Hi. unfold Sq.io_uring_submit.
  rewrite Hk, Hi, !Z.eqb_refl. reflexivity.
Qed.

(** C9.  When [io_uring_get_iocb] returns [NULL] the descriptor is left
    exactly as it was. *)
Theorem io_uring_get_iocb_full_frame : forall s,
  fst (Sq.io_uring_get_iocb s) = None ->
  snd (Sq.io_uring_get_iocb s) = s.
Proof.
  intros s. unfold Sq.io_uring_get_iocb.
  destruct (_ <? _); simpl; [reflexivity|discriminate].
Qed.

(** C10.  For a ring whose capacity is a power of two (as the kernel
    negotiates it) and whose shadow indices satisfy the occupancy
    invariant in wrapping [unsigned] arithmetic, the fullness test
    [(iocb_tail + 1) - iocb_head > *kring_entries] of
    [io_uring_get_iocb], computed modulo [2^32], holds exactly when the
    occupancy equals the capacity, also after the indices wrap. *)
Theorem io_uring_get_iocb_full_test_wraps : forall s,
  capacity_wf (Sq.kring_entries s) ->
  is_u32 (Sq.iocb_head s) -> is_u32 (Sq.iocb_tail s) ->
  u32 (Sq.iocb_tail s - Sq.iocb_head s) <= Sq.kring_entries s ->
  (Sq.kring_entries s < u32 (u32 (Sq.iocb_tail s + 1) - Sq.iocb_head s) <->
   u32 (Sq.iocb_tail s - Sq.iocb_head s) = Sq.kring_entries s).
Proof.
  intros s Hc Hh Ht Hocc.
  pose proof (capacity_wf_bound _ Hc).
  apply full_test_iff; auto; unfold u32_modulus; lia.
Qed.

(** ** The wait loop of [io_uring_get_completion] *)

Lemma get_completion_loop_done : forall replies mask head c ret c' ev,
  Cq.get_completion_loop replies mask head c = Cq.GcDone ret c' ev ->
  exists cl, ret = 0 /\ ev = Some (Z.land head mask) /\
    head <> Cq.ktail cl /\ Cq.khead cl = Cq.khead c /\
    Cq.kring_mask cl = Cq.kring_mask c /\
    c' = Cq.set_khead cl (u32 (head + 1)).
Proof.
  induction replies as [|r rs IH]; intros mask head c ret c' ev H; simpl in H.
  - destruct (head =? Cq.ktail c) eqn:E; simpl in H; [discriminate|].
    apply Z.eqb_neq in E. injection H as <- <- <-.
    exists c. auto 7.
  - destruct (head =? Cq.ktail c) eqn:E; simpl in H.
    + destruct (Cq.er_ret r <? 0); [discriminate|].
      destruct (IH _ _ _ _ _ _ H) as (cl & H1 & H2 & H3 & H4 & H5 & H6).
      exists cl. simpl in H4, H5. auto 7.
    + apply Z.eqb_neq in E. injection H as <- <- <-.
      exists c. auto 7.
Qed.

Lemma get_completion_loop_error : forall replies mask head c ret c',
  Cq.get_completion_loop replies mask head c = Cq.GcError ret c' ->
  exists pre r post,
    replies = pre ++ r :: post /\
    Forall (fun x => 0 <= Cq.er_ret x) pre /\
    Cq.er_ret r < 0 /\ ret = - Cq.er_errno r /\
    Cq.khead c' = Cq.khead c.
Proof.
  induction replies as [|r rs IH]; intros mask head c ret c' H; simpl in H.
  - destruct (negb (head =? Cq.ktail c)); discriminate.
  - destruct (negb (head =? Cq.ktail c)); [discriminate|].
    destruct (Cq.er_ret r <? 0) eqn:Er.
    + apply Z.ltb_lt in Er. injection H as <- <-.
      exists [], r, rs. simpl. auto 6.
    + apply Z.ltb_ge in Er.
      destruct (IH _ _ _ _ _ H) as (pre & r' & post & -> & Hpre & H1 & H2 & H3).
      exists (r :: pre), r', post. simpl in H3. auto 6.
Qed.

(** Engine answers that succeed without moving [*cq->ktail] only lead
    to the next round of the loop. *)
Lemma get_completion_loop_skip : forall pre rest mask head c,
  Cq.ktail c = head ->
  Forall (fun x => 0 <= Cq.er_ret x /\ Cq.er_ktail x = head) pre ->
  Cq.get_completion_loop (pre ++ rest) mask head c =
  Cq.get_completion_loop rest mask head c.
Proof.
  intros pre rest mask head c Ht Hpre.
  induction Hpre as [|x pre [Hx Hxt] _ IH]; [reflexivity|].
  simpl. rewrite Ht, Z.eqb_refl. simpl.
  replace (Cq.er_ret x <? 0) with false by (symmetry; apply Z.ltb_ge; exact Hx).
  replace (Cq.set_ktail c (Cq.er_ktail x)) with c
    by (rewrite Hxt, <- Ht; destruct c; reflexivity).
  exact IH.
Qed.

(** ** Claims on the completion ring *)

(** C3.  When a completion is visible ([head != *cq->ktail] after the
    read barrier), [io_uring_get_completion] returns 0, stores a non-null
    reference to the record at [head & *cq->kring_mask] in [*ev_ptr] and
    advances [*cq->khead] by exactly one.  More generally, every call that
    returns 0 (possibly after waiting in the engine) hands back exactly the
    record at the old [head & mask], which the kernel had made visible,
    and advances the head by exactly one. *)
Theorem io_uring_get_completion_one : forall replies c,
  (Cq.khead c <> Cq.ktail c ->
   Cq.io_uring_get_completion replies c =
   Cq.GcDone 0 (Cq.set_khead c (u32 (Cq.khead c + 1)))
     (Some (Z.land (Cq.khead c) (Cq.kring_mask c)))) /\
  (forall ret c' ev,
   Cq.io_uring_get_completion replies c = Cq.GcDone ret c' ev ->
   ret = 0 /\ ev = Some (Z.land (Cq.khead c) (Cq.kring_mask c)) /\
   Cq.khead c' = u32 (Cq.khead c + 1) /\ Cq.khead c <> Cq.ktail c' /\
   Cq.kring_mask c' = Cq.kring_mask c).
Proof.
  intros replies c. split.
  - intro Hne. unfold Cq.io_uring_get_completion.
    destruct replies; simpl; apply Z.eqb_neq in Hne; rewrite Hne; reflexivity.
  - intros ret c' ev H.
    destruct (get_completion_loop_done _ _ _ _ _ _ _ H)
      as (cl & -> & -> & Hv & Hh & Hm & ->).
    simpl. auto 6.
Qed.

(** C6.  When the engine call fails, [io_uring_get_completion] returns
    at once the negated [errno] of that call and leaves [*cq->khead]
    unchanged.  Forward: with nothing posted ([head == *cq->ktail]),
    after any number of successful engine answers that post nothing, an
    answer with a negative result makes the call return
    [-errno] of that answer, using no later answer.  Conversely, every
    error return comes from such an answer, preceded only by successful
    ones, and leaves the head where it was. *)
Theorem io_uring_get_completion_error : forall pre r post c,
  Cq.khead c = Cq.ktail c ->
  Forall (fun x => 0 <= Cq.er_ret x /\ Cq.er_ktail x = Cq.khead c) pre ->
  Cq.er_ret r < 0 ->
  (Cq.io_uring_get_completion (pre ++ r :: post) c =
     Cq.GcError (- Cq.er_errno r) (Cq.set_ktail c (Cq.er_ktail r)) /\
   Cq.khead (Cq.set_ktail c (Cq.er_ktail r)) = Cq.khead c) /\
  (forall replies ret c',
   Cq.io_uring_get_completion replies c = Cq.GcError ret c' ->
   exists pre' r' post',
     replies = pre' ++ r' :: post' /\
     Forall (fun x => 0 <= Cq.er_ret x) pre' /\
     Cq.er_ret r' < 0 /\ ret = - Cq.er_errno r' /\
     Cq.khead c' = Cq.khead c).
Proof.
  intros pre r post c He Hpre Hr. split.
  - split; [|reflexivity].
    unfold Cq.io_uring_get_completion.
    rewrite get_completion_loop_skip by (auto; symmetry; exact He).
    simpl. rewrite He, Z.eqb_refl. simpl.
    replace (Cq.er_ret r <? 0) with true by (symmetry; apply Z.ltb_lt; exact Hr).
    reflexivity.
  - intros replies ret c' H. exact (get_completion_loop_error _ _ _ _ _ _ H).
Qed.

(** ** Claims on mapping the rings *)

(** The rollback unmaps the SQ ring region at [sq->khead], that is
    [ptr + p->sq_off.head], not at the region's start: it releases the
    region only because the kernel reports the SQ head index at offset 0.
    With a head index 64 bytes into the region (a layout the kernel does
    not produce), the iocb mapping failing would leave the SQ ring region
    (at 4096, 208 bytes long) mapped. *)
Lemma io_uring_mmap_rollback_keeps_sq_ring :
  match Mmap.io_uring_mmap 64 16 ex_kernel_iocb_fails 3 (ex_params 64)
          ex_sq_ptrs ex_cq_ptrs (Mmap.mk_mm [] 0) with
  | (ret, _, _, w') => ret = -12 /\ Mmap.maps w' = [(4096, 208)]
  end.
Proof. vm_compute. split; reflexivity. Qed.

(** C7.  The parameters [*p] are filled in by [io_uring_setup], and the
    kernel reports the SQ head index at the start of the SQ ring region
    ([p->sq_off.head = 0]).  With such parameters, every failing stage
    of [io_uring_mmap] returns the negated [errno] of the failed [mmap]
    and releases the mappings this attempt established first: the SQ
    ring region when the iocb mapping fails, the iocb buffer and the SQ
    ring region when the CQ ring mapping fails.  The process's mappings
    are then exactly those it had before the call. *)
Theorem io_uring_mmap_rollback : forall sizeof_iocb sizeof_event kernel fd p sq cq w
                                        e ret sq' cq' w',
  Mmap.so_head (Mmap.sq_off p) = 0 ->
  (kernel Mmap.IORING_OFF_SQ_RING = Mmap.MapFail e \/
   (exists a, kernel Mmap.IORING_OFF_SQ_RING = Mmap.MapAt a /\
     (kernel Mmap.IORING_OFF_IOCB = Mmap.MapFail e \/
      (exists b, kernel Mmap.IORING_OFF_IOCB = Mmap.MapAt b /\
        kernel Mmap.IORING_OFF_CQ_RING = Mmap.MapFail e)))) ->
  Mmap.io_uring_mmap sizeof_iocb sizeof_event kernel fd p sq cq w =
    (ret, sq', cq', w') ->
  ret = - e /\ Mmap.maps w' = Mmap.maps w.
Proof.
  intros sizeof_iocb sizeof_event kernel fd p sq cq w e ret sq' cq' w'
    Hhead Hfail H.
  unfold Mmap.io_uring_mmap, Mmap.mmap in H.
  destruct Hfail as [Hsq | (a & Hsq & [Hio | (b & Hio & Hcq)])];
    rewrite Hsq in H; simpl in H.
  - injection H as <- _ _ <-. auto.
  - rewrite Hio in H. simpl in H.
    unfold Mmap.munmap in H. simpl in H. rewrite Hhead, Z.add_0_r, !Z.eqb_refl in H.
    simpl in H. injection H as <- _ _ <-. auto.
  - rewrite Hio in H. simpl in H. rewrite Hcq in H. simpl in H.
    unfold Mmap.munmap in H. simpl in H. rewrite !Z.eqb_refl in H. simpl in H.
    rewrite Hhead, Z.add_0_r, !Z.eqb_refl in H.
    simpl in H. injection H as <- _ _ <-. auto.
Qed.

(** ** The claims at concrete rings *)

Lemma io_uring_submit_publish_tail_witness :
  Sq.khead (fst (Sq.io_uring_submit 3 ex_two_acquired)) = Sq.khead ex_two_acquired /\
  Sq.ktail (fst (Sq.io_uring_submit 3 ex_two_acquired)) =
    u32 (Sq.khead ex_two_acquired + 2) /\
  u32 (Sq.ktail (fst (Sq.io_uring_submit 3 ex_two_acquired)) - Sq.khead ex_two_acquired)
    <= Sq.kring_entries ex_two_acquired.
Proof.
  apply (io_uring_submit_publish_tail 3 ex_two_acquired _ 3 2 0 IORING_ENTER_GETEVENTS).
  - unfold ex_two_acquired. apply reach_get_iocb, reach_get_iocb, reach_init. lia.
  - reflexivity.
  - vm_compute. reflexivity.
  - lia.
Defined.

Lemma io_uring_get_iocb_spec_witness :
  fst (Sq.io_uring_get_iocb ex_full) = None <->
  u32 (Sq.iocb_tail ex_full - Sq.iocb_head ex_full) = Sq.kring_entries ex_full.
Proof.
  apply (io_uring_get_iocb_spec ex_full).
  change ex_full with
    (snd (Sq.io_uring_get_iocb (snd (Sq.io_uring_get_iocb
      (snd (Sq.io_uring_get_iocb (snd (Sq.io_uring_get_iocb
        (sq_init 2 (fun _ => 0)))))))))).
  apply reach_get_iocb, reach_get_iocb, reach_get_iocb, reach_get_iocb, reach_init.
  lia.
Defined.

Lemma io_uring_get_completion_one_witness :
  Cq.io_uring_get_completion [] ex_cq =
  Cq.GcDone 0 (Cq.set_khead ex_cq (u32 (Cq.khead ex_cq + 1)))
    (Some (Z.land (Cq.khead ex_cq) (Cq.kring_mask ex_cq))).
Proof.
  apply (io_uring_get_completion_one [] ex_cq).
  simpl. discriminate.
Defined.

Lemma io_uring_submit_pending_witness :
  Sq.io_uring_submit 3 ex_pending =
  (ex_pending, Sq.Entered 3 (Sq.kring_entries ex_pending) 0 IORING_ENTER_GETEVENTS).
Proof.
  apply io_uring_submit_pending. simpl. discriminate.
Defined.

Lemma io_uring_submit_enter_args_witness :
  3 = 3 /\ 0 = 0 /\ IORING_ENTER_GETEVENTS = IORING_ENTER_GETEVENTS /\
  (Sq.khead ex_two_acquired <> Sq.ktail ex_two_acquired -> 2 = Sq.kring_entries ex_two_acquired) /\
  (Sq.khead ex_two_acquired = Sq.ktail ex_two_acquired ->
   2 <> 0 /\
   Sq.iocb_head (fst (Sq.io_uring_submit 3 ex_two_acquired)) =
     u32 (Sq.iocb_head ex_two_acquired + 2)) /\
  Sq.io_uring_submit_result (fun _ n _ _ => n) 3 ex_two_acquired = 2.
Proof.
  apply (io_uring_submit_enter_args (fun _ n _ _ => n) 3 ex_two_acquired _ 3 2 0
           IORING_ENTER_GETEVENTS).
  - split; [apply Z.leb_le | apply Z.ltb_lt]; reflexivity.
  - vm_compute. reflexivity.
Defined.

Lemma io_uring_submit_nothing_witness :
  Sq.io_uring_submit 3 (sq_init 2 (fun _ => 0)) =
  (sq_init 2 (fun _ => 0), Sq.Returned 0).
Proof. apply io_uring_submit_nothing; reflexivity. Defined.

Lemma io_uring_get_iocb_full_frame_witness :
  snd (Sq.io_uring_get_iocb ex_full) = ex_full.
Proof. apply io_uring_get_iocb_full_frame. vm_compute. reflexivity. Defined.

Lemma io_uring_get_iocb_full_test_wraps_witness :
  Sq.kring_entries ex_wrapped <
    u32 (u32 (Sq.iocb_tail ex_wrapped + 1) - Sq.iocb_head ex_wrapped) <->
  u32 (Sq.iocb_tail ex_wrapped - Sq.iocb_head ex_wrapped) = Sq.kring_entries ex_wrapped.
Proof.
  apply io_uring_get_iocb_full_test_wraps.
  - exists 2. split; [lia | reflexivity].
  - split; [apply Z.leb_le | apply Z.ltb_lt]; reflexivity.
  - split; [apply Z.leb_le | apply Z.ltb_lt]; reflexivity.
  - apply Z.leb_le. reflexivity.
Defined.

Lemma io_uring_get_completion_error_witness :
  Cq.khead ex_cq_empty = Cq.ktail ex_cq_empty /\
  Forall (fun x => 0 <= Cq.er_ret x /\ Cq.er_ktail x = Cq.khead ex_cq_empty)
    [Cq.mk_reply 0 0 6] /\
  Cq.er_ret (Cq.mk_reply (-1) 4 6) < 0 /\
  ((Cq.io_uring_get_completion ([Cq.mk_reply 0 0 6] ++ ex_replies_eintr) ex_cq_empty =
      Cq.GcError (- Cq.er_errno (Cq.mk_reply (-1) 4 6))
        (Cq.set_ktail ex_cq_empty (Cq.er_ktail (Cq.mk_reply (-1) 4 6))) /\
    Cq.khead (Cq.set_ktail ex_cq_empty (Cq.er_ktail (Cq.mk_reply (-1) 4 6))) =
      Cq.khead ex_cq_empty) /\
   (forall replies ret c',
    Cq.io_uring_get_completion replies ex_cq_empty = Cq.GcError ret c' ->
    exists pre' r' post',
      replies = pre' ++ r' :: post' /\
      Forall (fun x => 0 <= Cq.er_ret x) pre' /\
      Cq.er_ret r' < 0 /\ ret = - Cq.er_errno r' /\
      Cq.khead c' = Cq.khead ex_cq_empty)).
Proof.
  assert (H1 : Cq.khead ex_cq_empty = Cq.ktail ex_cq_empty) by reflexivity.
  assert (H2 : Forall (fun x => 0 <= Cq.er_ret x /\ Cq.er_ktail x = Cq.khead ex_cq_empty)
                 [Cq.mk_reply 0 0 6])
    by (repeat constructor; vm_compute; first [reflexivity | intro; discriminate]).
  assert (H3 : Cq.er_ret (Cq.mk_reply (-1) 4 6) < 0) by reflexivity.
  exact (conj H1 (conj H2 (conj H3
           (io_uring_get_completion_error [Cq.mk_reply 0 0 6] (Cq.mk_reply (-1) 4 6) []
              ex_cq_empty H1 H2 H3)))).
Defined.

Lemma io_uring_mmap_rollback_witness :
  fst (fst (fst (Mmap.io_uring_mmap 64 16 ex_kernel_iocb_fails 3 (ex_params 0)
                   ex_sq_ptrs ex_cq_ptrs (Mmap.mk_mm [] 0)))) = - 12 /\
  Mmap.maps (snd (Mmap.io_uring_mmap 64 16 ex_kernel_iocb_fails 3 (ex_params 0)
                   ex_sq_ptrs ex_cq_ptrs (Mmap.mk_mm [] 0))) =
  Mmap.maps (Mmap.mk_mm [] 0).
Proof.
  apply (io_uring_mmap_rollback 64 16 ex_kernel_iocb_fails 3 (ex_params 0)
           ex_sq_ptrs ex_cq_ptrs (Mmap.mk_mm [] 0) 12 _
           (snd (fst (fst (Mmap.io_uring_mmap 64 16 ex_kernel_iocb_fails 3 (ex_params 0)
                   ex_sq_ptrs ex_cq_ptrs (Mmap.mk_mm [] 0)))))
           (snd (fst (Mmap.io_uring_mmap 64 16 ex_kernel_iocb_fails 3 (ex_params 0)
                   ex_sq_ptrs ex_cq_ptrs (Mmap.mk_mm [] 0))))).
  - reflexivity.
  - right. exists 4096. split; [reflexivity | left; reflexivity].
  - vm_compute. reflexivity.
Defined.

(** * Further properties of the code *)

(** ** Draining the completion ring *)

Lemma u32_sub_r : forall a b, u32 (a - u32 b) = u32 (a - b).
Proof. intros. unfold u32. apply Zminus_mod_idemp_r. Qed.

Lemma u32_sub_zero : forall a b, is_u32 a -> is_u32 b -> u32 (a - b) = 0 -> a = b.
Proof.
  intros a b Ha Hb H. unfold u32, is_u32, u32_modulus in *.
  Z.div_mod_to_equations. lia.
Qed.

Lemma drain_posted : forall n c,
  is_u32 (Cq.khead c) -> is_u32 (Cq.ktail c) ->
  u32 (Cq.ktail c - Cq.khead c) = Z.of_nat n ->
  drain n c =
  Some (map (fun i => Z.land (u32 (Cq.khead c + Z.of_nat i)) (Cq.kring_mask c))
            (seq 0 n),
        Cq.set_khead c (Cq.ktail c)).
Proof.
  induction n as [|n IH]; intros c Hh Ht Hn; simpl.
  - apply u32_sub_zero in Hn; auto.
    destruct c; simpl in *; subst; reflexivity.
  - assert (Hne : Cq.khead c <> Cq.ktail c).
    { intro E. rewrite E, Z.sub_diag in Hn. discriminate. }
    unfold Cq.io_uring_get_completion. simpl.
    apply Z.eqb_neq in Hne. rewrite Hne. simpl.
    rewrite IH; simpl.
    + rewrite Z.add_0_r, (u32_small (Cq.khead c)) by exact Hh.
      f_equal. f_equal. f_equal.
      rewrite <- seq_shift, map_map. apply map_ext. intro i.
      rewrite u32_add_l. f_equal. f_equal. lia.
    + apply u32_range.
    + exact Ht.
    + simpl. rewrite u32_sub_r.
      replace (Cq.ktail c - (Cq.khead c + 1)) with ((Cq.ktail c - Cq.khead c) - 1) by lia.
      rewrite <- u32_sub_l, Hn, u32_small; [lia|].
      unfold is_u32, u32_modulus. pose proof (u32_range (Cq.ktail c - Cq.khead c)) as R.
      unfold is_u32, u32_modulus in R. rewrite Hn in R. lia.
Qed.

(** ** Ring positions: [x & (2^k - 1)] *)

Lemma land_mask_mod : forall x k, 0 <= k -> Z.land x (2 ^ k - 1) = x mod 2 ^ k.
Proof.
  intros x k Hk. rewrite <- Z.land_ones by exact Hk.
  rewrite Z.ones_equiv; f_equal; lia.
Qed.

Lemma u32_mod_pow : forall x k, 0 <= k <= 32 -> u32 x mod 2 ^ k = x mod 2 ^ k.
Proof.
  intros x k Hk. unfold u32. apply Z.mod_mod_divide.
  exists (2 ^ (32 - k)). unfold u32_modulus.
  rewrite <- Z.pow_add_r by lia. replace (32 - k + k) with 32 by lia. reflexivity.
Qed.

Lemma ring_pos : forall x k, 0 <= k <= 32 ->
  Z.land (u32 x) (2 ^ k - 1) = x mod 2 ^ k.
Proof.
  intros x k Hk. rewrite land_mask_mod by lia. apply u32_mod_pow. exact Hk.
Qed.

Lemma ring_pos_distinct : forall a i j k, 0 <= k -> 0 <= i < j -> j - i < 2 ^ k ->
  (a + i) mod 2 ^ k <> (a + j) mod 2 ^ k.
Proof.
  intros a i j k Hk Hij Hd E.
  assert (Hpos : 0 < 2 ^ k) by (apply Z.pow_pos_nonneg; lia).
  assert (H : (a + j - (a + i)) mod 2 ^ k = 0).
  { rewrite Zminus_mod, <- E, Z.sub_diag. reflexivity. }
  replace (a + j - (a + i)) with (j - i) in H by lia.
  rewrite Z.mod_small in H by lia. lia.
Qed.

(** The fill loop, on an empty kernel ring, writes ring position
    [(kt0 + i) & mask] of [sq->array] with the shadow slot
    [(h0 + i) & mask], for each published [i], and no other position. *)
Lemma submit_loop_array : forall n j kt0 h0 tl k arr0 arr,
  0 <= j -> j + Z.of_nat n = tl - h0 -> 0 <= h0 -> tl < u32_modulus ->
  is_u32 kt0 -> 0 <= k <= 31 -> tl - h0 <= 2 ^ k ->
  (forall i, 0 <= i < j ->
     arr (Z.land (u32 (kt0 + i)) (2 ^ k - 1)) = Z.land (h0 + i) (2 ^ k - 1)) ->
  (forall q, (forall i, 0 <= i < j -> q <> Z.land (u32 (kt0 + i)) (2 ^ k - 1)) ->
     arr q = arr0 q) ->
  let o := Sq.submit_loop n (2 ^ k - 1) kt0 tl
             (Sq.mk_loop (u32 (kt0 + j)) (u32 (kt0 + j)) (h0 + j) j arr) in
  (forall i, 0 <= i < tl - h0 ->
     Sq.l_array o (Z.land (u32 (kt0 + i)) (2 ^ k - 1)) = Z.land (h0 + i) (2 ^ k - 1)) /\
  (forall q, (forall i, 0 <= i < tl - h0 -> q <> Z.land (u32 (kt0 + i)) (2 ^ k - 1)) ->
     Sq.l_array o q = arr0 q).
Proof.
  induction n as [|n IH];
    intros j kt0 h0 tl k arr0 arr Hj Hn Hh0 Htl Hkt0 Hk Hcap Hset Hframe; simpl.
  - replace (tl - h0) with j by lia. auto.
  - assert (Hlt : h0 + j < tl) by lia.
    apply Z.ltb_lt in Hlt. rewrite Hlt.
    rewrite u32_add_l, <- Z.add_assoc.
    destruct (u32 (kt0 + (j + 1)) =? kt0) eqn:Heq.
    + apply Z.eqb_eq in Heq. exfalso.
      apply (u32_add_self kt0 (j + 1)); auto. lia.
    + rewrite (u32_small (h0 + j + 1)) by (unfold is_u32; lia).
      rewrite (u32_small (j + 1)) by (unfold is_u32; lia).
      replace (h0 + j + 1) with (h0 + (j + 1)) by lia.
      apply IH; auto; try lia.
      * intros i Hi. unfold Sq.array_store.
        destruct (Z.eqb_spec (Z.land (u32 (kt0 + i)) (2 ^ k - 1))
                    (Z.land (u32 (kt0 + j)) (2 ^ k - 1))) as [E|E].
        -- destruct (Z.eq_dec i j) as [->|Hij]; [reflexivity|].
           exfalso. rewrite !ring_pos in E by lia.
           assert (i < j) by lia.
           apply (ring_pos_distinct kt0 i j k); lia.
        -- apply Hset. assert (i <> j) by (intro; subst; auto). lia.
      * intros q Hq. unfold Sq.array_store.
        destruct (Z.eqb_spec q (Z.land (u32 (kt0 + j)) (2 ^ k - 1))) as [E|E].
        -- exfalso. apply (Hq j); [lia|exact E].
        -- apply Hframe. intros i Hi. apply Hq. lia.
Qed.

(** The publish path of [io_uring_submit] on an empty kernel ring, in
    full: every queued shadow descriptor is published, the tail moves by
    their number, and [sq->array] maps each new ring position to its
    shadow slot. *)
Lemma submit_publish_core : forall fd s,
  sq_inv s -> Sq.khead s = Sq.ktail s -> Sq.iocb_head s < Sq.iocb_tail s ->
  exists arr',
    Sq.io_uring_submit fd s =
      (Sq.mk_sq (Sq.khead s) (u32 (Sq.ktail s + (Sq.iocb_tail s - Sq.iocb_head s)))
         (Sq.kring_mask s) (Sq.kring_entries s) (Sq.kflags s) (Sq.kdropped s)
         arr' (Sq.iocb_tail s) (Sq.iocb_tail s),
       Sq.Entered fd (Sq.iocb_tail s - Sq.iocb_head s) 0 IORING_ENTER_GETEVENTS) /\
    (forall i, 0 <= i < Sq.iocb_tail s - Sq.iocb_head s ->
       arr' (Z.land (u32 (Sq.ktail s + i)) (Sq.kring_mask s)) =
       Z.land (Sq.iocb_head s + i) (Sq.kring_mask s)) /\
    (forall q, (forall i, 0 <= i < Sq.iocb_tail s - Sq.iocb_head s ->
                  q <> Z.land (u32 (Sq.ktail s + i)) (Sq.kring_mask s)) ->
       arr' q = Sq.array s q).
Proof.
  intros fd s Hinv Hempty Hlt.
  pose proof Hinv as (Hc & Hm & Hkh & Hkt & Hh & Ht & Hocc).
  pose proof (capacity_wf_bound _ Hc) as Hb.
  destruct Hc as [k [Hk He]].
  unfold is_u32 in Hh, Ht.
  assert (Hd : Sq.iocb_tail s - Sq.iocb_head s <= 2 ^ k).
  { rewrite u32_small in Hocc by (unfold is_u32; lia). lia. }
  unfold Sq.io_uring_submit.
  rewrite Hempty, Z.eqb_refl. simpl negb. cbv iota.
  assert (Hne : (Sq.iocb_head s =? Sq.iocb_tail s) = false) by (apply Z.eqb_neq; lia).
  rewrite Hne. rewrite Hm, He.
  replace (Sq.mk_loop (Sq.ktail s) (Sq.ktail s) (Sq.iocb_head s) 0 (Sq.array s)) with
    (Sq.mk_loop (u32 (Sq.ktail s + 0)) (u32 (Sq.ktail s + 0)) (Sq.iocb_head s + 0) 0
       (Sq.array s))
    by (rewrite !Z.add_0_r, u32_small by exact Hkt; reflexivity).
  pose proof (submit_loop_publish (Z.to_nat (Sq.iocb_tail s - Sq.iocb_head s)) 0
                (Sq.ktail s) (Sq.iocb_head s) (Sq.iocb_tail s) (2 ^ k - 1) (Sq.array s)
                ltac:(lia) ltac:(lia) ltac:(lia) ltac:(lia) Hkt)
    as (Hkt' & Hhd & Hsb).
  pose proof (submit_loop_array (Z.to_nat (Sq.iocb_tail s - Sq.iocb_head s)) 0
                (Sq.ktail s) (Sq.iocb_head s) (Sq.iocb_tail s) k (Sq.array s) (Sq.array s)
                ltac:(lia) ltac:(lia) ltac:(lia) ltac:(lia) Hkt Hk Hd
                ltac:(intros; lia) ltac:(auto))
    as (Hset & Hframe).
  set (o := Sq.submit_loop _ _ _ _ _) in *.
  cbv zeta. rewrite Hsb.
  assert (Hd0 : (Sq.iocb_tail s - Sq.iocb_head s =? 0) = false) by (apply Z.eqb_neq; lia).
  rewrite Hd0.
  exists (Sq.l_array o). split; [|split; auto].
  simpl Sq.ktail.
  destruct (negb (Sq.ktail s =? Sq.l_ktail o)) eqn:Ew.
  - unfold Sq.set_ktail. simpl. rewrite Hkt', Hhd. reflexivity.
  - apply negb_false_iff, Z.eqb_eq in Ew. rewrite Hhd, <- Hkt', <- Ew. reflexivity.
Qed.

(** ** Invariants of the submission ring *)

(** X1.  On every reachable submission ring the capacity is a power of two
    with [kring_mask = kring_entries - 1], the shadow occupancy
    [iocb_tail - iocb_head] (modulo [2^32]) never exceeds the capacity,
    and every slot [io_uring_get_iocb] hands out indexes inside the
    [iocbs] array. *)
Theorem sq_reachable_bounds : forall s,
  sq_reachable s ->
  (exists k, 0 <= k <= 31 /\ Sq.kring_entries s = 2 ^ k /\ Sq.kring_mask s = 2 ^ k - 1) /\
  u32 (Sq.iocb_tail s - Sq.iocb_head s) <= Sq.kring_entries s /\
  (forall x, fst (Sq.io_uring_get_iocb s) = Some x -> 0 <= x < Sq.kring_entries s).
Proof.
  intros s Hr.
  pose proof (sq_reachable_inv s Hr) as (Hc & Hm & _ & _ & _ & _ & Hocc).
  destruct Hc as [k [Hk He]].
  split; [exists k; rewrite Hm, He; split; [lia | split; reflexivity]|].
  split; [exact Hocc|].
  intros x Hx. unfold Sq.io_uring_get_iocb in Hx.
  destruct (Sq.kring_entries s <? _) in Hx; simpl in Hx; [discriminate|].
  injection Hx as <-. rewrite Hm, He, land_mask_mod by lia.
  apply Z.mod_pos_bound. apply Z.pow_pos_nonneg; lia.
Qed.

Lemma sq_reachable_bounds_witness :
  sq_reachable ex_two_acquired /\
  ((exists k, 0 <= k <= 31 /\ Sq.kring_entries ex_two_acquired = 2 ^ k /\
              Sq.kring_mask ex_two_acquired = 2 ^ k - 1) /\
   u32 (Sq.iocb_tail ex_two_acquired - Sq.iocb_head ex_two_acquired) <=
     Sq.kring_entries ex_two_acquired /\
   (forall x, fst (Sq.io_uring_get_iocb ex_two_acquired) = Some x ->
      0 <= x < Sq.kring_entries ex_two_acquired)).
Proof.
  assert (H : sq_reachable ex_two_acquired).
  { unfold ex_two_acquired. apply reach_get_iocb, reach_get_iocb, (reach_init 2). lia. }
  exact (conj H (sq_reachable_bounds ex_two_acquired H)).
Defined.

(** ** [io_uring_submit] on the publish path *)

(** X2.  On a reachable ring whose kernel ring is empty, [io_uring_submit]
    publishes every queued shadow descriptor, [d = iocb_tail - iocb_head]
    of them: for each [i < d], [sq->array] at ring position
    [(ktail + i) & mask] names the shadow slot [(iocb_head + i) & mask];
    no other position of [sq->array] is written; [*sq->ktail] moves by
    [d], [iocb_head] catches up with [iocb_tail], and the engine is
    entered with [to_submit = d]. *)
Theorem io_uring_submit_publishes : forall fd s,
  sq_reachable s -> Sq.khead s = Sq.ktail s -> Sq.iocb_head s < Sq.iocb_tail s ->
  let d := Sq.iocb_tail s - Sq.iocb_head s in
  let s' := fst (Sq.io_uring_submit fd s) in
  snd (Sq.io_uring_submit fd s) = Sq.Entered fd d 0 IORING_ENTER_GETEVENTS /\
  Sq.ktail s' = u32 (Sq.ktail s + d) /\
  Sq.iocb_head s' = Sq.iocb_tail s /\
  (forall i, 0 <= i < d ->
     Sq.array s' (Z.land (u32 (Sq.ktail s + i)) (Sq.kring_mask s)) =
     Z.land (Sq.iocb_head s + i) (Sq.kring_mask s)) /\
  (forall q, (forall i, 0 <= i < d -> q <> Z.land (u32 (Sq.ktail s + i)) (Sq.kring_mask s)) ->
     Sq.array s' q = Sq.array s q).
Proof.
  intros fd s Hr He Hl. cbv zeta.
  destruct (submit_publish_core fd s (sq_reachable_inv s Hr) He Hl) as (arr' & E & Ha & Hf).
  rewrite E. simpl. repeat split; auto.
Qed.

Lemma io_uring_submit_publishes_witness :
  sq_reachable ex_two_acquired /\
  Sq.khead ex_two_acquired = Sq.ktail ex_two_acquired /\
  Sq.iocb_head ex_two_acquired < Sq.iocb_tail ex_two_acquired /\
  (let s := ex_two_acquired in
   let d := Sq.iocb_tail s - Sq.iocb_head s in
   let s' := fst (Sq.io_uring_submit 3 s) in
   snd (Sq.io_uring_submit 3 s) = Sq.Entered 3 d 0 IORING_ENTER_GETEVENTS /\
   Sq.ktail s' = u32 (Sq.ktail s + d) /\
   Sq.iocb_head s' = Sq.iocb_tail s /\
   (forall i, 0 <= i < d ->
      Sq.array s' (Z.land (u32 (Sq.ktail s + i)) (Sq.kring_mask s)) =
      Z.land (Sq.iocb_head s + i) (Sq.kring_mask s)) /\
   (forall q, (forall i, 0 <= i < d -> q <> Z.land (u32 (Sq.ktail s + i)) (Sq.kring_mask s)) ->
      Sq.array s' q = Sq.array s q)).
Proof.
  assert (H : sq_reachable ex_two_acquired).
  { unfold ex_two_acquired. apply reach_get_iocb, reach_get_iocb, (reach_init 2). lia. }
  assert (H1 : Sq.khead ex_two_acquired = Sq.ktail ex_two_acquired) by reflexivity.
  assert (H2 : Sq.iocb_head ex_two_acquired < Sq.iocb_tail ex_two_acquired)
    by (vm_compute; reflexivity).
  exact (conj H (conj H1 (conj H2 (io_uring_submit_publishes 3 ex_two_acquired H H1 H2)))).
Defined.

(** X3.  When the free-running shadow indices have wrapped ([iocb_tail] below
    [iocb_head] as integers, although [iocb_tail - iocb_head] modulo
    [2^32] counts queued descriptors), the loop test
    [iocb_head < iocb_tail] of [io_uring_submit] fails at once: on an
    empty kernel ring the call returns 0, publishes nothing and changes
    nothing, and the queued descriptors stay unpublished. *)
Theorem io_uring_submit_wrapped_stall : forall fd s,
  Sq.khead s = Sq.ktail s -> Sq.iocb_tail s < Sq.iocb_head s ->
  is_u32 (Sq.iocb_head s) -> is_u32 (Sq.iocb_tail s) ->
  0 < u32 (Sq.iocb_tail s - Sq.iocb_head s) /\
  Sq.io_uring_submit fd s = (s, Sq.Returned 0).
Proof.
  intros fd s He Hl Hh Ht. split.
  - unfold u32, is_u32, u32_modulus in *. Z.div_mod_to_equations. lia.
  - unfold Sq.io_uring_submit. rewrite He, Z.eqb_refl.
    assert (Hne : (Sq.iocb_head s =? Sq.iocb_tail s) = false) by (apply Z.eqb_neq; lia).
    rewrite Hne.
    replace (Z.to_nat (Sq.iocb_tail s - Sq.iocb_head s)) with 0%nat by lia.
    simpl. destruct s; simpl in He; subst; reflexivity.
Qed.

Lemma io_uring_submit_wrapped_stall_witness :
  Sq.khead ex_wrapped = Sq.ktail ex_wrapped /\
  Sq.iocb_tail ex_wrapped < Sq.iocb_head ex_wrapped /\
  is_u32 (Sq.iocb_head ex_wrapped) /\ is_u32 (Sq.iocb_tail ex_wrapped) /\
  (0 < u32 (Sq.iocb_tail ex_wrapped - Sq.iocb_head ex_wrapped) /\
   Sq.io_uring_submit 3 ex_wrapped = (ex_wrapped, Sq.Returned 0)).
Proof.
  assert (H1 : Sq.khead ex_wrapped = Sq.ktail ex_wrapped) by reflexivity.
  assert (H2 : Sq.iocb_tail ex_wrapped < Sq.iocb_head ex_wrapped) by (simpl; lia).
  assert (H3 : is_u32 (Sq.iocb_head ex_wrapped)) by (unfold is_u32, u32_modulus; simpl; lia).
  assert (H4 : is_u32 (Sq.iocb_tail ex_wrapped)) by (unfold is_u32, u32_modulus; simpl; lia).
  exact (conj H1 (conj H2 (conj H3 (conj H4
           (io_uring_submit_wrapped_stall 3 ex_wrapped H1 H2 H3 H4))))).
Defined.

(** X4.  After a publish, a second [io_uring_submit] before the kernel has
    consumed anything finds [*sq->khead != *sq->ktail]: it changes
    nothing and enters the engine again with [to_submit = *kring_entries]
    rather than the number just published. *)
Theorem io_uring_submit_resubmit : forall fd s,
  sq_reachable s -> Sq.khead s = Sq.ktail s -> Sq.iocb_head s < Sq.iocb_tail s ->
  let s' := fst (Sq.io_uring_submit fd s) in
  Sq.io_uring_submit fd s' =
    (s', Sq.Entered fd (Sq.kring_entries s) 0 IORING_ENTER_GETEVENTS).
Proof.
  intros fd s Hr He Hl. cbv zeta.
  pose proof (sq_reachable_inv s Hr) as Hinv.
  pose proof Hinv as (_ & _ & _ & Hkt & Hh & Ht & _).
  destruct (submit_publish_core fd s Hinv He Hl) as (arr' & E & _ & _).
  rewrite E. simpl fst. unfold Sq.io_uring_submit at 1. cbn [Sq.khead Sq.ktail Sq.kring_entries].
  rewrite He.
  destruct (Z.eqb_spec (Sq.ktail s) (u32 (Sq.ktail s + (Sq.iocb_tail s - Sq.iocb_head s))))
    as [Eq|Eq].
  - exfalso. apply (u32_add_self (Sq.ktail s) (Sq.iocb_tail s - Sq.iocb_head s)); auto.
    unfold is_u32 in *. lia.
  - reflexivity.
Qed.

Lemma io_uring_submit_resubmit_witness :
  sq_reachable ex_two_acquired /\
  Sq.khead ex_two_acquired = Sq.ktail ex_two_acquired /\
  Sq.iocb_head ex_two_acquired < Sq.iocb_tail ex_two_acquired /\
  (let s' := fst (Sq.io_uring_submit 3 ex_two_acquired) in
   Sq.io_uring_submit 3 s' =
     (s', Sq.Entered 3 (Sq.kring_entries ex_two_acquired) 0 IORING_ENTER_GETEVENTS)).
Proof.
  assert (H : sq_reachable ex_two_acquired).
  { unfold ex_two_acquired. apply reach_get_iocb, reach_get_iocb, (reach_init 2). lia. }
  assert (H1 : Sq.khead ex_two_acquired = Sq.ktail ex_two_acquired) by reflexivity.
  assert (H2 : Sq.iocb_head ex_two_acquired < Sq.iocb_tail ex_two_acquired)
    by (vm_compute; reflexivity).
  exact (conj H (conj H1 (conj H2 (io_uring_submit_resubmit 3 ex_two_acquired H H1 H2)))).
Defined.

(** X5.  Once the kernel has consumed everything a publish made visible
    ([*sq->khead] reaches [*sq->ktail]), the ring is idle again: the
    shadow range is empty, and [io_uring_submit] returns 0 without
    entering the engine and without changing anything. *)
Theorem io_uring_submit_after_consume : forall fd s,
  sq_reachable s -> Sq.khead s = Sq.ktail s -> Sq.iocb_head s < Sq.iocb_tail s ->
  let s' := fst (Sq.io_uring_submit fd s) in
  let s'' := Sq.set_khead s' (Sq.ktail s') in
  u32 (Sq.iocb_tail s'' - Sq.iocb_head s'') = 0 /\
  Sq.io_uring_submit fd s'' = (s'', Sq.Returned 0).
Proof.
  intros fd s Hr He Hl. cbv zeta.
  destruct (submit_publish_core fd s (sq_reachable_inv s Hr) He Hl) as (arr' & E & _ & _).
  rewrite E. simpl. rewrite Z.sub_diag. split; [reflexivity|].
  unfold Sq.io_uring_submit. simpl. rewrite !Z.eqb_refl. reflexivity.
Qed.

Lemma io_uring_submit_after_consume_witness :
  sq_reachable ex_two_acquired /\
  Sq.khead ex_two_acquired = Sq.ktail ex_two_acquired /\
  Sq.iocb_head ex_two_acquired < Sq.iocb_tail ex_two_acquired /\
  (let s' := fst (Sq.io_uring_submit 3 ex_two_acquired) in
   let s'' := Sq.set_khead s' (Sq.ktail s') in
   u32 (Sq.iocb_tail s'' - Sq.iocb_head s'') = 0 /\
   Sq.io_uring_submit 3 s'' = (s'', Sq.Returned 0)).
Proof.
  assert (H : sq_reachable ex_two_acquired).
  { unfold ex_two_acquired. apply reach_get_iocb, reach_get_iocb, (reach_init 2). lia. }
  assert (H1 : Sq.khead ex_two_acquired = Sq.ktail ex_two_acquired) by reflexivity.
  assert (H2 : Sq.iocb_head ex_two_acquired < Sq.iocb_tail ex_two_acquired)
    by (vm_compute; reflexivity).
  exact (conj H (conj H1 (conj H2 (io_uring_submit_after_consume 3 ex_two_acquired H H1 H2)))).
Defined.

(** X6.  What the library never writes.  Neither [io_uring_get_iocb] nor
    [io_uring_submit] writes [*sq->khead] (the kernel's), the ring's
    mask, capacity, flags or dropped count; [io_uring_get_iocb] moves
    only [iocb_tail], and [io_uring_submit] never moves [iocb_tail]. *)
Theorem sq_library_frame : forall fd s,
  let s1 := snd (Sq.io_uring_get_iocb s) in
  let s2 := fst (Sq.io_uring_submit fd s) in
  (Sq.khead s1 = Sq.khead s /\ Sq.ktail s1 = Sq.ktail s /\
   Sq.kring_mask s1 = Sq.kring_mask s /\ Sq.kring_entries s1 = Sq.kring_entries s /\
   Sq.kflags s1 = Sq.kflags s /\ Sq.kdropped s1 = Sq.kdropped s /\
   Sq.array s1 = Sq.array s /\ Sq.iocb_head s1 = Sq.iocb_head s) /\
  (Sq.khead s2 = Sq.khead s /\
   Sq.kring_mask s2 = Sq.kring_mask s /\ Sq.kring_entries s2 = Sq.kring_entries s /\
   Sq.kflags s2 = Sq.kflags s /\ Sq.kdropped s2 = Sq.kdropped s /\
   Sq.iocb_tail s2 = Sq.iocb_tail s).
Proof.
  intros fd s. cbv zeta. split.
  - unfold Sq.io_uring_get_iocb.
    destruct (Sq.kring_entries s <? _); simpl; repeat split.
  - unfold Sq.io_uring_submit.
    destruct (negb (Sq.khead s =? Sq.ktail s)); [simpl; repeat split|].
    destruct (Sq.iocb_head s =? Sq.iocb_tail s); [simpl; repeat split|].
    destruct (Sq.l_submitted _ =? 0); [simpl; repeat split|].
    destruct (negb _); simpl; repeat split.
Qed.

(** ** Sequences of [io_uring_get_iocb] *)

Lemma get_iocb_occupancy_step : forall h t,
  is_u32 h -> u32 (t - h) + 1 < u32_modulus ->
  u32 (u32 (t + 1) - h) = u32 (t - h) + 1.
Proof.
  intros h t Hh Hlt. rewrite u32_sub_l.
  replace (t + 1 - h) with ((t - h) + 1) by lia.
  rewrite <- u32_add_l. apply u32_small.
  pose proof (u32_range (t - h)). unfold is_u32 in *. lia.
Qed.

(** [n] acquisitions that fit in the free part of the shadow range all
    succeed and hand out consecutive slots. *)
Lemma get_iocbs_acquire : forall n s,
  is_u32 (Sq.iocb_head s) -> is_u32 (Sq.iocb_tail s) ->
  Sq.kring_entries s < u32_modulus ->
  u32 (Sq.iocb_tail s - Sq.iocb_head s) + Z.of_nat n <= Sq.kring_entries s ->
  get_iocbs n s =
  (map (fun i => Some (Z.land (u32 (Sq.iocb_tail s + Z.of_nat i)) (Sq.kring_mask s)))
       (seq 0 n),
   Sq.set_iocb_tail s (u32 (Sq.iocb_tail s + Z.of_nat n))).
Proof.
  induction n as [|n IH]; intros s Hh Ht He Hocc.
  - simpl. rewrite Z.add_0_r, u32_small by exact Ht. destruct s; reflexivity.
  - cbn [get_iocbs]. unfold Sq.io_uring_get_iocb at 1.
    rewrite get_iocb_occupancy_step by (auto; lia).
    assert (Hf : (Sq.kring_entries s <? u32 (Sq.iocb_tail s - Sq.iocb_head s) + 1) = false)
      by (apply Z.ltb_ge; lia).
    rewrite Hf.
    rewrite IH; cbn [Sq.set_iocb_tail Sq.iocb_head Sq.iocb_tail Sq.kring_entries Sq.kring_mask].
    + cbn [seq map]. f_equal.
      * f_equal.
        -- rewrite Z.add_0_r, u32_small by exact Ht. reflexivity.
        -- rewrite <- seq_shift, map_map. apply map_ext. intro i.
           rewrite u32_add_l. do 3 f_equal. lia.
      * rewrite u32_add_l. destruct s; unfold Sq.set_iocb_tail; simpl.
        do 2 f_equal. lia.
    + exact Hh.
    + apply u32_range.
    + exact He.
    + rewrite get_iocb_occupancy_step by (auto; lia). lia.
Qed.

Lemma get_iocbs_reachable : forall n s,
  sq_reachable s -> sq_reachable (snd (get_iocbs n s)).
Proof.
  induction n as [|n IH]; intros s Hr; simpl; [exact Hr|].
  destruct (Sq.io_uring_get_iocb s) as [r s1] eqn:E.
  destruct (get_iocbs n s1) as [rs s2] eqn:E2. simpl.
  assert (H1 : sq_reachable s1).
  { replace s1 with (snd (Sq.io_uring_get_iocb s)) by (rewrite E; reflexivity).
    apply reach_get_iocb. exact Hr. }
  specialize (IH s1 H1). rewrite E2 in IH. exact IH.
Qed.

(** The slot [io_uring_get_iocb] hands out is [iocb_tail & mask], and the
    ring was not full. *)
Lemma get_iocb_some : forall s x s',
  sq_inv s -> Sq.io_uring_get_iocb s = (Some x, s') ->
  x = Z.land (Sq.iocb_tail s) (Sq.kring_mask s) /\
  s' = Sq.set_iocb_tail s (u32 (Sq.iocb_tail s + 1)) /\
  u32 (Sq.iocb_tail s - Sq.iocb_head s) < Sq.kring_entries s.
Proof.
  intros s x s' Hinv H.
  pose proof Hinv as (Hc & _ & _ & _ & Hh & Ht & Hocc).
  pose proof (capacity_wf_bound _ Hc) as Hb.
  unfold Sq.io_uring_get_iocb in H.
  rewrite get_iocb_occupancy_step in H by (auto; unfold u32_modulus; lia).
  destruct (Sq.kring_entries s <? _) eqn:Ef; [discriminate|].
  apply Z.ltb_ge in Ef. injection H as <- <-.
  split; [reflexivity | split; [reflexivity | lia]].
Qed.

(** Closes a comparison of concrete integers. *)
Ltac concrete := vm_compute; first [reflexivity | intro; discriminate].


Lemma ex_two_acquired_reachable : sq_reachable ex_two_acquired.
Proof.
  unfold ex_two_acquired. apply reach_get_iocb, reach_get_iocb, (reach_init 2). lia.
Qed.

(** X7.  From an idle ring (kernel ring and shadow range both empty), [n]
    acquisitions, [0 < n <= *kring_entries], hand out the slots
    [(iocb_tail + i) & mask] in order; the [io_uring_submit] that follows
    publishes exactly these slots, in this order, at the ring positions
    [(ktail + i) & mask], and enters the engine with [to_submit = n].
    The shadow indices must not wrap past [2^32] in between (see
    [io_uring_submit_wrapped_stall]). *)
Theorem get_iocbs_then_submit : forall fd n s,
  sq_reachable s -> Sq.khead s = Sq.ktail s -> Sq.iocb_head s = Sq.iocb_tail s ->
  (0 < n)%nat -> Z.of_nat n <= Sq.kring_entries s ->
  Sq.iocb_tail s + Z.of_nat n < u32_modulus ->
  let slots := fst (get_iocbs n s) in
  let s1 := snd (get_iocbs n s) in
  let s2 := fst (Sq.io_uring_submit fd s1) in
  slots = map (fun i => Some (Z.land (Sq.iocb_tail s + Z.of_nat i) (Sq.kring_mask s)))
              (seq 0 n) /\
  snd (Sq.io_uring_submit fd s1) = Sq.Entered fd (Z.of_nat n) 0 IORING_ENTER_GETEVENTS /\
  Sq.ktail s2 = u32 (Sq.ktail s + Z.of_nat n) /\
  (forall i, 0 <= i < Z.of_nat n ->
     Sq.array s2 (Z.land (u32 (Sq.ktail s + i)) (Sq.kring_mask s)) =
     Z.land (Sq.iocb_tail s + i) (Sq.kring_mask s)).
Proof.
  intros fd n s Hr He Hht Hn Hne Hnt. cbv zeta.
  pose proof (sq_reachable_inv s Hr) as Hinv.
  pose proof Hinv as (Hc & _ & _ & _ & Hh & Ht & _).
  pose proof (capacity_wf_bound _ Hc) as Hb.
  assert (Hocc0 : u32 (Sq.iocb_tail s - Sq.iocb_head s) = 0)
    by (rewrite Hht, Z.sub_diag; reflexivity).
  pose proof (get_iocbs_acquire n s Hh Ht ltac:(unfold u32_modulus; lia) ltac:(lia)) as Eg.
  pose proof (get_iocbs_reachable n s Hr) as Hr1. rewrite Eg in Hr1. simpl snd in Hr1.
  rewrite Eg. cbn [fst snd].
  rewrite (u32_small (Sq.iocb_tail s + Z.of_nat n)) in * by (unfold is_u32 in *; lia).
  set (s1 := Sq.set_iocb_tail s (Sq.iocb_tail s + Z.of_nat n)) in *.
  assert (He1 : Sq.khead s1 = Sq.ktail s1) by exact He.
  assert (Hl1 : Sq.iocb_head s1 < Sq.iocb_tail s1) by (simpl; lia).
  destruct (submit_publish_core fd s1 (sq_reachable_inv s1 Hr1) He1 Hl1) as (arr' & E & Ha & _).
  rewrite E. cbn [fst snd Sq.ktail Sq.array].
  change (Sq.iocb_tail s1) with (Sq.iocb_tail s + Z.of_nat n) in *.
  change (Sq.iocb_head s1) with (Sq.iocb_head s) in *.
  change (Sq.ktail s1) with (Sq.ktail s) in *.
  change (Sq.kring_mask s1) with (Sq.kring_mask s) in *.
  replace (Sq.iocb_tail s + Z.of_nat n - Sq.iocb_head s) with (Z.of_nat n) in * by lia.
  split; [|split; [reflexivity|split; [reflexivity|]]].
  - apply map_ext_in. intros i Hi. apply in_seq in Hi.
    rewrite u32_small by (unfold is_u32 in *; lia). reflexivity.
  - intros i Hi. rewrite Ha by exact Hi. rewrite Hht. reflexivity.
Qed.

Lemma get_iocbs_then_submit_witness :
  let s := sq_init 2 (fun _ => 0) in
  sq_reachable s /\ Sq.khead s = Sq.ktail s /\ Sq.iocb_head s = Sq.iocb_tail s /\
  (0 < 3)%nat /\ Z.of_nat 3 <= Sq.kring_entries s /\
  Sq.iocb_tail s + Z.of_nat 3 < u32_modulus /\
  (let slots := fst (get_iocbs 3 s) in
   let s1 := snd (get_iocbs 3 s) in
   let s2 := fst (Sq.io_uring_submit 5 s1) in
   slots = map (fun i => Some (Z.land (Sq.iocb_tail s + Z.of_nat i) (Sq.kring_mask s)))
               (seq 0 3) /\
   snd (Sq.io_uring_submit 5 s1) = Sq.Entered 5 (Z.of_nat 3) 0 IORING_ENTER_GETEVENTS /\
   Sq.ktail s2 = u32 (Sq.ktail s + Z.of_nat 3) /\
   (forall i, 0 <= i < Z.of_nat 3 ->
      Sq.array s2 (Z.land (u32 (Sq.ktail s + i)) (Sq.kring_mask s)) =
      Z.land (Sq.iocb_tail s + i) (Sq.kring_mask s))).
Proof.
  cbv zeta.
  assert (H : sq_reachable (sq_init 2 (fun _ => 0))) by (apply (reach_init 2); lia).
  assert (H1 : Sq.khead (sq_init 2 (fun _ => 0)) = Sq.ktail (sq_init 2 (fun _ => 0)))
    by reflexivity.
  assert (H2 : Sq.iocb_head (sq_init 2 (fun _ => 0)) = Sq.iocb_tail (sq_init 2 (fun _ => 0)))
    by reflexivity.
  assert (H3 : (0 < 3)%nat) by lia.
  assert (H4 : Z.of_nat 3 <= Sq.kring_entries (sq_init 2 (fun _ => 0))) by concrete.
  assert (H5 : Sq.iocb_tail (sq_init 2 (fun _ => 0)) + Z.of_nat 3 < u32_modulus) by concrete.
  exact (conj H (conj H1 (conj H2 (conj H3 (conj H4 (conj H5
           (get_iocbs_then_submit 5 3 (sq_init 2 (fun _ => 0)) H H1 H2 H3 H4 H5))))))).
Defined.

(** X8.  From an empty shadow range, [*kring_entries] acquisitions in a row
    all succeed and hand out every slot of the [iocbs] array exactly once
    (pairwise distinct slots, each in [0, *kring_entries)); the next
    acquisition finds the ring full. *)
Theorem get_iocbs_fill : forall s,
  sq_reachable s -> Sq.iocb_head s = Sq.iocb_tail s ->
  let e := Z.to_nat (Sq.kring_entries s) in
  let slots := fst (get_iocbs e s) in
  length slots = e /\ NoDup slots /\ ~ In None slots /\
  (forall x, In (Some x) slots -> 0 <= x < Sq.kring_entries s) /\
  fst (Sq.io_uring_get_iocb (snd (get_iocbs e s))) = None.
Proof.
  intros s Hr Hht. cbv zeta.
  pose proof (sq_reachable_inv s Hr) as (Hc & Hm & _ & _ & Hh & Ht & _).
  pose proof (capacity_wf_bound _ Hc) as Hb.
  destruct Hc as [k [Hk He]].
  assert (Hocc0 : u32 (Sq.iocb_tail s - Sq.iocb_head s) = 0)
    by (rewrite Hht, Z.sub_diag; reflexivity).
  assert (Hpos : 0 < 2 ^ k) by (apply Z.pow_pos_nonneg; lia).
  rewrite (get_iocbs_acquire (Z.to_nat (Sq.kring_entries s)) s Hh Ht
             ltac:(unfold u32_modulus; lia) ltac:(lia)).
  cbn [fst snd].
  split; [rewrite length_map, length_seq; reflexivity|].
  split; [|split; [|split]].
  - apply NoDup_map_NoDup_ForallPairs; [|apply seq_NoDup].
    intros a b Ha Hb' Eab. apply in_seq in Ha, Hb'. injection Eab as Eab.
    rewrite Hm, He, !ring_pos in Eab by lia.
    destruct (Nat.lt_trichotomy a b) as [Hab|[Hab|Hab]]; [exfalso | exact Hab | exfalso].
    + exact (ring_pos_distinct (Sq.iocb_tail s) (Z.of_nat a) (Z.of_nat b) k
               ltac:(lia) ltac:(lia) ltac:(lia) Eab).
    + exact (ring_pos_distinct (Sq.iocb_tail s) (Z.of_nat b) (Z.of_nat a) k
               ltac:(lia) ltac:(lia) ltac:(lia) (eq_sym Eab)).
  - intro Hin. apply in_map_iff in Hin as (i & Hi & _). discriminate.
  - intros x Hin. apply in_map_iff in Hin as (i & Hi & _). injection Hi as <-.
    rewrite Hm, He, ring_pos by lia. apply Z.mod_pos_bound. exact Hpos.
  - unfold Sq.io_uring_get_iocb, Sq.set_iocb_tail.
    cbn [Sq.iocb_tail Sq.iocb_head Sq.kring_entries].
    rewrite u32_add_l, u32_sub_l, Hht.
    replace (Sq.iocb_tail s + Z.of_nat (Z.to_nat (Sq.kring_entries s)) + 1 - Sq.iocb_tail s)
      with (Sq.kring_entries s + 1) by lia.
    rewrite u32_small by (unfold is_u32, u32_modulus; lia).
    replace (Sq.kring_entries s <? Sq.kring_entries s + 1) with true
      by (symmetry; apply Z.ltb_lt; lia).
    reflexivity.
Qed.

Lemma get_iocbs_fill_witness :
  let s := sq_init 2 (fun _ => 0) in
  sq_reachable s /\ Sq.iocb_head s = Sq.iocb_tail s /\
  (let e := Z.to_nat (Sq.kring_entries s) in
   let slots := fst (get_iocbs e s) in
   length slots = e /\ NoDup slots /\ ~ In None slots /\
   (forall x, In (Some x) slots -> 0 <= x < Sq.kring_entries s) /\
   fst (Sq.io_uring_get_iocb (snd (get_iocbs e s))) = None).
Proof.
  cbv zeta.
  assert (H : sq_reachable (sq_init 2 (fun _ => 0))) by (apply (reach_init 2); lia).
  assert (H1 : Sq.iocb_head (sq_init 2 (fun _ => 0)) = Sq.iocb_tail (sq_init 2 (fun _ => 0)))
    by reflexivity.
  exact (conj H (conj H1 (get_iocbs_fill (sq_init 2 (fun _ => 0)) H H1))).
Defined.

(** ** Which slots [io_uring_get_iocb] hands out *)

(** X9.  On a reachable ring, the slot [io_uring_get_iocb] hands out is none
    of the slots acquired before and not yet published: it differs from
    [(iocb_head + i) & mask] for every [i] below the occupancy, also when
    the indices have wrapped. *)
Theorem io_uring_get_iocb_fresh_slot : forall s x s',
  sq_reachable s -> Sq.io_uring_get_iocb s = (Some x, s') ->
  forall i, 0 <= i < u32 (Sq.iocb_tail s - Sq.iocb_head s) ->
  x <> Z.land (u32 (Sq.iocb_head s + i)) (Sq.kring_mask s).
Proof.
  intros s x s' Hr H i Hi.
  pose proof (sq_reachable_inv s Hr) as Hinv.
  destruct (get_iocb_some s x s' Hinv H) as (-> & _ & Hlt).
  pose proof Hinv as (Hc & Hm & _ & _ & _ & _ & _).
  destruct Hc as [k [Hk He]]. rewrite He in Hlt. rewrite Hm, He.
  rewrite land_mask_mod, ring_pos by lia.
  assert (Ht : Sq.iocb_tail s mod 2 ^ k =
               (Sq.iocb_head s + u32 (Sq.iocb_tail s - Sq.iocb_head s)) mod 2 ^ k).
  { rewrite Zplus_mod, u32_mod_pow by lia. rewrite <- Zplus_mod. f_equal. lia. }
  rewrite Ht. intro E.
  exact (ring_pos_distinct (Sq.iocb_head s) i (u32 (Sq.iocb_tail s - Sq.iocb_head s)) k
           ltac:(lia) ltac:(lia) ltac:(lia) (eq_sym E)).
Qed.

Lemma io_uring_get_iocb_fresh_slot_witness :
  sq_reachable ex_two_acquired /\
  Sq.io_uring_get_iocb ex_two_acquired = (Some 2, snd (Sq.io_uring_get_iocb ex_two_acquired)) /\
  (forall i, 0 <= i < u32 (Sq.iocb_tail ex_two_acquired - Sq.iocb_head ex_two_acquired) ->
   2 <> Z.land (u32 (Sq.iocb_head ex_two_acquired + i)) (Sq.kring_mask ex_two_acquired)).
Proof.
  assert (H1 : Sq.io_uring_get_iocb ex_two_acquired =
               (Some 2, snd (Sq.io_uring_get_iocb ex_two_acquired))) by reflexivity.
  exact (conj ex_two_acquired_reachable (conj H1
           (io_uring_get_iocb_fresh_slot ex_two_acquired 2 _ ex_two_acquired_reachable H1))).
Defined.



(** ** Consuming completions *)

(** X11.  With [n] records posted ([*cq->ktail - *cq->khead = n] modulo
    [2^32]) and [n] at most the ring depth [2^k], [n] calls of
    [io_uring_get_completion] in a row each return 0 at once, without an
    engine call, and hand back the records at the ring positions
    [(khead + i) & mask] in order, each once.  The head then meets the
    tail, and a further call has to wait in the engine. *)
Theorem drain_posted_records : forall n c k,
  is_u32 (Cq.khead c) -> is_u32 (Cq.ktail c) ->
  u32 (Cq.ktail c - Cq.khead c) = Z.of_nat n ->
  0 <= k <= 31 -> Cq.kring_mask c = 2 ^ k - 1 -> Z.of_nat n <= 2 ^ k ->
  exists evs,
    drain n c = Some (evs, Cq.set_khead c (Cq.ktail c)) /\
    evs = map (fun i => Z.land (u32 (Cq.khead c + Z.of_nat i)) (Cq.kring_mask c)) (seq 0 n) /\
    NoDup evs /\
    Cq.io_uring_get_completion [] (Cq.set_khead c (Cq.ktail c)) = Cq.GcBlocked.
Proof.
  intros n c k Hh Ht Hn Hk Hm Hnk.
  eexists. split; [apply drain_posted; assumption|]. split; [reflexivity|]. split.
  - apply NoDup_map_NoDup_ForallPairs; [|apply seq_NoDup].
    intros a b Ha Hb Eab. apply in_seq in Ha, Hb.
    rewrite Hm, !ring_pos in Eab by lia.
    destruct (Nat.lt_trichotomy a b) as [Hab|[Hab|Hab]]; [exfalso | exact Hab | exfalso].
    + exact (ring_pos_distinct (Cq.khead c) (Z.of_nat a) (Z.of_nat b) k
               ltac:(lia) ltac:(lia) ltac:(lia) Eab).
    + exact (ring_pos_distinct (Cq.khead c) (Z.of_nat b) (Z.of_nat a) k
               ltac:(lia) ltac:(lia) ltac:(lia) (eq_sym Eab)).
  - unfold Cq.io_uring_get_completion. simpl. rewrite Z.eqb_refl. reflexivity.
Qed.

Lemma drain_posted_records_witness :
  is_u32 (Cq.khead ex_cq) /\ is_u32 (Cq.ktail ex_cq) /\
  u32 (Cq.ktail ex_cq - Cq.khead ex_cq) = Z.of_nat 2 /\
  0 <= 3 <= 31 /\ Cq.kring_mask ex_cq = 2 ^ 3 - 1 /\ Z.of_nat 2 <= 2 ^ 3 /\
  (exists evs,
    drain 2 ex_cq = Some (evs, Cq.set_khead ex_cq (Cq.ktail ex_cq)) /\
    evs = map (fun i => Z.land (u32 (Cq.khead ex_cq + Z.of_nat i)) (Cq.kring_mask ex_cq))
              (seq 0 2) /\
    NoDup evs /\
    Cq.io_uring_get_completion [] (Cq.set_khead ex_cq (Cq.ktail ex_cq)) = Cq.GcBlocked).
Proof.
  assert (H1 : is_u32 (Cq.khead ex_cq)) by (split; concrete).
  assert (H2 : is_u32 (Cq.ktail ex_cq)) by (split; concrete).
  assert (H3 : u32 (Cq.ktail ex_cq - Cq.khead ex_cq) = Z.of_nat 2) by reflexivity.
  assert (H4 : 0 <= 3 <= 31) by lia.
  assert (H5 : Cq.kring_mask ex_cq = 2 ^ 3 - 1) by reflexivity.
  assert (H6 : Z.of_nat 2 <= 2 ^ 3) by concrete.
  exact (conj H1 (conj H2 (conj H3 (conj H4 (conj H5 (conj H6
           (drain_posted_records 2 ex_cq 3 H1 H2 H3 H4 H5 H6))))))).
Defined.

(** X12.  With nothing posted, [io_uring_get_completion] keeps calling
    [io_uring_enter] while the engine returns without error and without
    moving [*cq->ktail]; at the first successful answer that moves the
    tail it consumes the record at [head & mask], advances the head by
    one and returns 0, using no later answer. *)
Theorem io_uring_get_completion_waits : forall pre r post c,
  Cq.khead c = Cq.ktail c ->
  Forall (fun x => 0 <= Cq.er_ret x /\ Cq.er_ktail x = Cq.khead c) pre ->
  0 <= Cq.er_ret r -> Cq.er_ktail r <> Cq.khead c ->
  Cq.io_uring_get_completion (pre ++ r :: post) c =
  Cq.GcDone 0 (Cq.set_khead (Cq.set_ktail c (Cq.er_ktail r)) (u32 (Cq.khead c + 1)))
    (Some (Z.land (Cq.khead c) (Cq.kring_mask c))).
Proof.
  intros pre r post c He Hpre Hr Hne.
  unfold Cq.io_uring_get_completion.
  induction Hpre as [|x pre [Hx Hxt] _ IH]; simpl.
  - rewrite He, Z.eqb_refl. simpl.
    replace (Cq.er_ret r <? 0) with false by (symmetry; apply Z.ltb_ge; exact Hr).
    simpl. rewrite <- He.
    assert (Hn : (Cq.khead c =? Cq.er_ktail r) = false) by (apply Z.eqb_neq; congruence).
    destruct post; simpl; rewrite Hn; reflexivity.
  - rewrite He, Z.eqb_refl. simpl.
    replace (Cq.er_ret x <? 0) with false by (symmetry; apply Z.ltb_ge; exact Hx).
    replace (Cq.set_ktail c (Cq.er_ktail x)) with c
      by (rewrite Hxt, He; destruct c; reflexivity).
    rewrite <- He. exact IH.
Qed.

Lemma io_uring_get_completion_waits_witness :
  Cq.khead ex_cq_empty = Cq.ktail ex_cq_empty /\
  Forall (fun x => 0 <= Cq.er_ret x /\ Cq.er_ktail x = Cq.khead ex_cq_empty)
    [Cq.mk_reply 0 0 6; Cq.mk_reply 0 0 6] /\
  0 <= Cq.er_ret (Cq.mk_reply 1 0 7) /\ Cq.er_ktail (Cq.mk_reply 1 0 7) <> Cq.khead ex_cq_empty /\
  Cq.io_uring_get_completion ([Cq.mk_reply 0 0 6; Cq.mk_reply 0 0 6] ++
                              Cq.mk_reply 1 0 7 :: [Cq.mk_reply (-1) 4 7]) ex_cq_empty =
  Cq.GcDone 0 (Cq.set_khead (Cq.set_ktail ex_cq_empty (Cq.er_ktail (Cq.mk_reply 1 0 7)))
                 (u32 (Cq.khead ex_cq_empty + 1)))
    (Some (Z.land (Cq.khead ex_cq_empty) (Cq.kring_mask ex_cq_empty))).
Proof.
  assert (H1 : Cq.khead ex_cq_empty = Cq.ktail ex_cq_empty) by reflexivity.
  assert (H2 : Forall (fun x => 0 <= Cq.er_ret x /\ Cq.er_ktail x = Cq.khead ex_cq_empty)
                 [Cq.mk_reply 0 0 6; Cq.mk_reply 0 0 6])
    by (repeat constructor; concrete).
  assert (H3 : 0 <= Cq.er_ret (Cq.mk_reply 1 0 7)) by concrete.
  assert (H4 : Cq.er_ktail (Cq.mk_reply 1 0 7) <> Cq.khead ex_cq_empty) by concrete.
  exact (conj H1 (conj H2 (conj H3 (conj H4
           (io_uring_get_completion_waits _ _ [Cq.mk_reply (-1) 4 7] ex_cq_empty
              H1 H2 H3 H4))))).
Defined.

(** ** Mapping, creating and tearing down the rings *)

(** X13.  When all three [mmap] calls succeed, [io_uring_mmap] returns [fd];
    every pointer of [sq] and [cq] is the base of its region plus the
    offset the kernel reported (what [sq] and [cq] held before is
    ignored); the iocb buffer pointer is the second mapping itself; and
    the process gains exactly the three mappings, of sizes
    [sq_off.array + sq_entries * 4], [sq_entries * sizeof(iocb)] and
    [cq_off.events + cq_entries * sizeof(event)]. *)
Theorem io_uring_mmap_maps_all : forall sizeof_iocb sizeof_event kernel fd p sq cq w
                                        a1 a2 a3,
  kernel Mmap.IORING_OFF_SQ_RING = Mmap.MapAt a1 ->
  kernel Mmap.IORING_OFF_IOCB = Mmap.MapAt a2 ->
  kernel Mmap.IORING_OFF_CQ_RING = Mmap.MapAt a3 ->
  let o := Mmap.sq_off p in
  let c := Mmap.cq_off p in
  let ring_sz := Mmap.u64 (Mmap.so_array o + Mmap.sq_entries p * 4) in
  let iocb_sz := Mmap.u64 (Mmap.sq_entries p * sizeof_iocb) in
  let cring_sz := Mmap.u64 (Mmap.co_events c + Mmap.cq_entries p * sizeof_event) in
  Mmap.io_uring_mmap sizeof_iocb sizeof_event kernel fd p sq cq w =
  (fd,
   Mmap.mk_sq_ptrs (a1 + Mmap.so_head o) (a1 + Mmap.so_tail o) (a1 + Mmap.so_ring_mask o)
     (a1 + Mmap.so_ring_entries o) (a1 + Mmap.so_flags o) (a1 + Mmap.so_dropped o)
     (a1 + Mmap.so_array o) a2 ring_sz,
   Mmap.mk_cq_ptrs (a3 + Mmap.co_head c) (a3 + Mmap.co_tail c) (a3 + Mmap.co_ring_mask c)
     (a3 + Mmap.co_ring_entries c) (a3 + Mmap.co_overflow c) (a3 + Mmap.co_events c)
     cring_sz,
   Mmap.mk_mm ((a3, cring_sz) :: (a2, iocb_sz) :: (a1, ring_sz) :: Mmap.maps w)
     (Mmap.errno w)).
Proof.
  intros sizeof_iocb sizeof_event kernel fd p sq cq w a1 a2 a3 H1 H2 H3. cbv zeta.
  unfold Mmap.io_uring_mmap, Mmap.mmap. rewrite H1, H2, H3. reflexivity.
Qed.

Lemma io_uring_mmap_maps_all_witness :
  ex_kernel_ok Mmap.IORING_OFF_SQ_RING = Mmap.MapAt 4096 /\
  ex_kernel_ok Mmap.IORING_OFF_IOCB = Mmap.MapAt 8192 /\
  ex_kernel_ok Mmap.IORING_OFF_CQ_RING = Mmap.MapAt 16384 /\
  (let p := ex_params 0 in
   let o := Mmap.sq_off p in
   let c := Mmap.cq_off p in
   let ring_sz := Mmap.u64 (Mmap.so_array o + Mmap.sq_entries p * 4) in
   let iocb_sz := Mmap.u64 (Mmap.sq_entries p * 64) in
   let cring_sz := Mmap.u64 (Mmap.co_events c + Mmap.cq_entries p * 16) in
   Mmap.io_uring_mmap 64 16 ex_kernel_ok 3 p ex_sq_ptrs ex_cq_ptrs (Mmap.mk_mm [] 0) =
   (3,
    Mmap.mk_sq_ptrs (4096 + Mmap.so_head o) (4096 + Mmap.so_tail o)
      (4096 + Mmap.so_ring_mask o) (4096 + Mmap.so_ring_entries o)
      (4096 + Mmap.so_flags o) (4096 + Mmap.so_dropped o)
      (4096 + Mmap.so_array o) 8192 ring_sz,
    Mmap.mk_cq_ptrs (16384 + Mmap.co_head c) (16384 + Mmap.co_tail c)
      (16384 + Mmap.co_ring_mask c) (16384 + Mmap.co_ring_entries c)
      (16384 + Mmap.co_overflow c) (16384 + Mmap.co_events c) cring_sz,
    Mmap.mk_mm ((16384, cring_sz) :: (8192, iocb_sz) :: (4096, ring_sz) :: Mmap.maps (Mmap.mk_mm [] 0))
      (Mmap.errno (Mmap.mk_mm [] 0)))).
Proof.
  assert (H1 : ex_kernel_ok Mmap.IORING_OFF_SQ_RING = Mmap.MapAt 4096) by reflexivity.
  assert (H2 : ex_kernel_ok Mmap.IORING_OFF_IOCB = Mmap.MapAt 8192) by reflexivity.
  assert (H3 : ex_kernel_ok Mmap.IORING_OFF_CQ_RING = Mmap.MapAt 16384) by reflexivity.
  exact (conj H1 (conj H2 (conj H3
           (io_uring_mmap_maps_all 64 16 ex_kernel_ok 3 (ex_params 0) ex_sq_ptrs ex_cq_ptrs
              (Mmap.mk_mm [] 0) 4096 8192 16384 H1 H2 H3)))).
Defined.

(** X14.  When the first [mmap] (the SQ ring) fails, [io_uring_mmap] returns
    the negated [errno], maps nothing, leaves [cq] untouched and writes
    only [sq->ring_sz] in [sq]. *)
Theorem io_uring_mmap_sq_ring_fails : forall sizeof_iocb sizeof_event kernel fd p sq cq w e,
  kernel Mmap.IORING_OFF_SQ_RING = Mmap.MapFail e ->
  Mmap.io_uring_mmap sizeof_iocb sizeof_event kernel fd p sq cq w =
  (- e,
   Mmap.mk_sq_ptrs (Mmap.sq_khead sq) (Mmap.sq_ktail sq) (Mmap.sq_kring_mask sq)
     (Mmap.sq_kring_entries sq) (Mmap.sq_kflags sq) (Mmap.sq_kdropped sq)
     (Mmap.sq_array sq) (Mmap.sq_iocbs sq)
     (Mmap.u64 (Mmap.so_array (Mmap.sq_off p) + Mmap.sq_entries p * 4)),
   cq, Mmap.mk_mm (Mmap.maps w) e).
Proof.
  intros sizeof_iocb sizeof_event kernel fd p sq cq w e H.
  unfold Mmap.io_uring_mmap, Mmap.mmap. rewrite H. reflexivity.
Qed.

Lemma io_uring_mmap_sq_ring_fails_witness :
  (fun _ : Z => Mmap.MapFail 12) Mmap.IORING_OFF_SQ_RING = Mmap.MapFail 12 /\
  Mmap.io_uring_mmap 64 16 (fun _ => Mmap.MapFail 12) 3 (ex_params 0) ex_sq_ptrs ex_cq_ptrs
    (Mmap.mk_mm [] 0) =
  (- 12,
   Mmap.mk_sq_ptrs (Mmap.sq_khead ex_sq_ptrs) (Mmap.sq_ktail ex_sq_ptrs)
     (Mmap.sq_kring_mask ex_sq_ptrs) (Mmap.sq_kring_entries ex_sq_ptrs)
     (Mmap.sq_kflags ex_sq_ptrs) (Mmap.sq_kdropped ex_sq_ptrs)
     (Mmap.sq_array ex_sq_ptrs) (Mmap.sq_iocbs ex_sq_ptrs)
     (Mmap.u64 (Mmap.so_array (Mmap.sq_off (ex_params 0)) +
                Mmap.sq_entries (ex_params 0) * 4)),
   ex_cq_ptrs, Mmap.mk_mm (Mmap.maps (Mmap.mk_mm [] 0)) 12).
Proof.
  assert (H : (fun _ : Z => Mmap.MapFail 12) Mmap.IORING_OFF_SQ_RING = Mmap.MapFail 12)
    by reflexivity.
  exact (conj H (io_uring_mmap_sq_ring_fails 64 16 (fun _ => Mmap.MapFail 12) 3 (ex_params 0)
                   ex_sq_ptrs ex_cq_ptrs (Mmap.mk_mm [] 0) 12 H)).
Defined.

(** X15.  When [io_uring_setup] fails, [io_uring_queue_init] returns its -1
    (not the negated [errno]), maps nothing, opens no descriptor and
    leaves [*p], [sq] and [cq] as they were; [errno] is the kernel's. *)
Theorem io_uring_queue_init_setup_fails : forall sizeof_iocb sizeof_event e kernel p sq cq w,
  Init.io_uring_queue_init sizeof_iocb sizeof_event (Init.SetupFail e) kernel p sq cq w =
  (-1, p, sq, cq, Init.mk_proc (Mmap.mk_mm (Mmap.maps (Init.p_mm w)) e) (Init.p_fds w)).
Proof. intros. reflexivity. Qed.

(** X16.  Once [io_uring_setup] has returned a descriptor, [io_uring_queue_init]
    never closes it: whatever the mapping stages do, the descriptor stays
    open and [*p] holds the kernel's parameters.  When a mapping stage
    fails, the call returns the negated [errno] of the failed [mmap]
    while the descriptor is left open. *)
Theorem io_uring_queue_init_keeps_fd : forall sizeof_iocb sizeof_event fd p' kernel p sq cq w,
  0 <= fd ->
  let '(ret, p1, _, _, w1) :=
    Init.io_uring_queue_init sizeof_iocb sizeof_event (Init.SetupFd fd p') kernel p sq cq w in
  p1 = p' /\ Init.p_fds w1 = fd :: Init.p_fds w /\
  (forall e,
   (kernel Mmap.IORING_OFF_SQ_RING = Mmap.MapFail e \/
    (exists a, kernel Mmap.IORING_OFF_SQ_RING = Mmap.MapAt a /\
      (kernel Mmap.IORING_OFF_IOCB = Mmap.MapFail e \/
       (exists b, kernel Mmap.IORING_OFF_IOCB = Mmap.MapAt b /\
         kernel Mmap.IORING_OFF_CQ_RING = Mmap.MapFail e)))) ->
   ret = - e).
Proof.
  intros sizeof_iocb sizeof_event fd p' kernel p sq cq w Hfd.
  unfold Init.io_uring_queue_init, Init.io_uring_setup.
  replace (fd <? 0) with false by (symmetry; apply Z.ltb_ge; exact Hfd).
  cbn [Init.p_mm Init.p_fds].
  destruct (Mmap.io_uring_mmap sizeof_iocb sizeof_event kernel fd p' Init.sq_zero Init.cq_zero
              (Init.p_mm w)) as [[[ret sq1] cq1] m] eqn:E.
  split; [reflexivity | split; [reflexivity|]].
  intros e Hf. revert E.
  unfold Mmap.io_uring_mmap, Mmap.mmap.
  destruct Hf as [Hsq | (a & Hsq & [Hio | (b & Hio & Hcq)])]; rewrite Hsq; simpl.
  - intro E. injection E as <- _ _ _. reflexivity.
  - rewrite Hio. simpl.
    destruct (Mmap.munmap _ _ _); intro E; injection E as <- _ _ _; reflexivity.
  - rewrite Hio. simpl. rewrite Hcq. simpl.
    destruct (Mmap.munmap _ _ _); simpl; destruct (Mmap.munmap _ _ _);
      intro E; injection E as <- _ _ _; reflexivity.
Qed.

Lemma io_uring_queue_init_keeps_fd_witness :
  0 <= 3 /\
  (let '(ret, p1, _, _, w1) :=
     Init.io_uring_queue_init 64 16 (Init.SetupFd 3 (ex_params 0)) ex_kernel_iocb_fails
       (ex_params 0) ex_sq_ptrs ex_cq_ptrs (Init.mk_proc (Mmap.mk_mm [] 0) []) in
   p1 = ex_params 0 /\ Init.p_fds w1 = 3 :: Init.p_fds (Init.mk_proc (Mmap.mk_mm [] 0) []) /\
   (forall e,
    (ex_kernel_iocb_fails Mmap.IORING_OFF_SQ_RING = Mmap.MapFail e \/
     (exists a, ex_kernel_iocb_fails Mmap.IORING_OFF_SQ_RING = Mmap.MapAt a /\
       (ex_kernel_iocb_fails Mmap.IORING_OFF_IOCB = Mmap.MapFail e \/
        (exists b, ex_kernel_iocb_fails Mmap.IORING_OFF_IOCB = Mmap.MapAt b /\
          ex_kernel_iocb_fails Mmap.IORING_OFF_CQ_RING = Mmap.MapFail e)))) ->
    ret = - e)).
Proof.
  assert (H : 0 <= 3) by lia.
  exact (conj H (io_uring_queue_init_keeps_fd 64 16 3 (ex_params 0) ex_kernel_iocb_fails
                   (ex_params 0) ex_sq_ptrs ex_cq_ptrs (Init.mk_proc (Mmap.mk_mm [] 0) []) H)).
Defined.

Lemma remove_first_head : forall x l, Mmap.remove_first x (x :: l) = Some l.
Proof. intros [a b] l. simpl. rewrite !Z.eqb_refl. reflexivity. Qed.

Lemma remove_first_second : forall x y l,
  Mmap.remove_first x (y :: x :: l) = Some (y :: l).
Proof.
  intros [a b] [c d] l. simpl.
  destruct ((c =? a) && (d =? b)) eqn:E.
  - apply andb_true_iff in E as [E1 E2]. apply Z.eqb_eq in E1, E2. subst. reflexivity.
  - rewrite !Z.eqb_refl. reflexivity.
Qed.

(** X17.  Creating the rings and tearing them down again restores the process:
    when [io_uring_setup] returns a descriptor, all three [mmap] calls
    succeed and the kernel reports the head indices at the start of their
    ring regions ([sq_off.head = cq_off.head = 0]), [io_uring_queue_init]
    returns the descriptor, and the [io_uring_queue_exit] that follows
    (reading [*sq->kring_entries = p->sq_entries]) releases the three
    mappings and closes the descriptor: mappings, [errno] and open
    descriptors are those before [io_uring_queue_init]. *)
Theorem io_uring_queue_init_exit : forall sizeof_iocb sizeof_event fd p' kernel p sq cq w
                                          a1 a2 a3,
  0 <= fd ->
  Mmap.so_head (Mmap.sq_off p') = 0 -> Mmap.co_head (Mmap.cq_off p') = 0 ->
  kernel Mmap.IORING_OFF_SQ_RING = Mmap.MapAt a1 ->
  kernel Mmap.IORING_OFF_IOCB = Mmap.MapAt a2 ->
  kernel Mmap.IORING_OFF_CQ_RING = Mmap.MapAt a3 ->
  let '(ret, p1, sq1, cq1, w1) :=
    Init.io_uring_queue_init sizeof_iocb sizeof_event (Init.SetupFd fd p') kernel p sq cq w in
  ret = fd /\
  Init.io_uring_queue_exit sizeof_iocb (Mmap.sq_entries p1) ret sq1 cq1 w1 = w.
Proof.
  intros sizeof_iocb sizeof_event fd p' kernel p sq cq w a1 a2 a3 Hfd Hso Hco H1 H2 H3.
  unfold Init.io_uring_queue_init, Init.io_uring_setup.
  replace (fd <? 0) with false by (symmetry; apply Z.ltb_ge; exact Hfd).
  unfold Mmap.io_uring_mmap, Mmap.mmap. rewrite H1, H2, H3. simpl.
  split; [reflexivity|].
  unfold Init.io_uring_queue_exit, Mmap.munmap.
  cbn [Mmap.sq_iocbs Mmap.sq_khead Mmap.sq_ring_sz Mmap.cq_khead Mmap.cq_ring_sz
       Mmap.sq_entries Init.p_mm Init.p_fds Mmap.maps Mmap.errno].
  rewrite Hso, Hco, !Z.add_0_r.
  rewrite remove_first_second. cbn [Mmap.maps Mmap.errno].
  rewrite remove_first_second. cbn [Mmap.maps Mmap.errno].
  rewrite remove_first_head. cbn [Mmap.maps Mmap.errno snd].
  unfold Init.close. cbn [Init.p_fds Init.p_mm Init.remove_fd]. rewrite Z.eqb_refl.
  destruct w as [[maps errno] fds]. reflexivity.
Qed.

Lemma io_uring_queue_init_exit_witness :
  0 <= 3 /\
  Mmap.so_head (Mmap.sq_off (ex_params 0)) = 0 /\ Mmap.co_head (Mmap.cq_off (ex_params 0)) = 0 /\
  ex_kernel_ok Mmap.IORING_OFF_SQ_RING = Mmap.MapAt 4096 /\
  ex_kernel_ok Mmap.IORING_OFF_IOCB = Mmap.MapAt 8192 /\
  ex_kernel_ok Mmap.IORING_OFF_CQ_RING = Mmap.MapAt 16384 /\
  (let '(ret, p1, sq1, cq1, w1) :=
     Init.io_uring_queue_init 64 16 (Init.SetupFd 3 (ex_params 0)) ex_kernel_ok
       (ex_params 0) ex_sq_ptrs ex_cq_ptrs (Init.mk_proc (Mmap.mk_mm [(0, 4096)] 0) [0; 1; 2]) in
   ret = 3 /\
   Init.io_uring_queue_exit 64 (Mmap.sq_entries p1) ret sq1 cq1 w1 =
     Init.mk_proc (Mmap.mk_mm [(0, 4096)] 0) [0; 1; 2]).
Proof.
  assert (H0 : 0 <= 3) by lia.
  assert (Hs : Mmap.so_head (Mmap.sq_off (ex_params 0)) = 0) by reflexivity.
  assert (Hc : Mmap.co_head (Mmap.cq_off (ex_params 0)) = 0) by reflexivity.
  assert (H1 : ex_kernel_ok Mmap.IORING_OFF_SQ_RING = Mmap.MapAt 4096) by reflexivity.
  assert (H2 : ex_kernel_ok Mmap.IORING_OFF_IOCB = Mmap.MapAt 8192) by reflexivity.
  assert (H3 : ex_kernel_ok Mmap.IORING_OFF_CQ_RING = Mmap.MapAt 16384) by reflexivity.
  exact (conj H0 (conj Hs (conj Hc (conj H1 (conj H2 (conj H3
           (io_uring_queue_init_exit 64 16 3 (ex_params 0) ex_kernel_ok (ex_params 0)
              ex_sq_ptrs ex_cq_ptrs (Init.mk_proc (Mmap.mk_mm [(0, 4096)] 0) [0; 1; 2])
              4096 8192 16384 H0 Hs Hc H1 H2 H3))))))).
Defined.
